(** * Retrieval-evaluation metrics of [metrics.py]

    A shallow embedding of the metrics module (precision@k, average
    precision, average precision@n, micro/macro mAP, R1 and MR1) together
    with the properties its specification states about it.

    Conventions of the embedding.
    - Python integers are [Z]; a relevance list is a [list Z].
    - Python's true division [/] is exact rational division on [Q] that
      raises [ZeroDivisionError] on a zero divisor (the specification fixes
      "plain rational arithmetic" for all metrics).  Results in [Q] are
      compared with [==].
    - A computation that may raise is a value of [res]; [exn] lists the
      exception classes the module raises and the one ([ValueError]) that
      only its specification names.
    - Rounding is not modelled: the statements below are those that do not
      depend on it.  The one failure of float arithmetic that the module
      can reach, the [OverflowError] of converting an out-of-range integer
      divisor, is modelled where it can occur.
    - Item identifiers are carried as the integer that [int(fname)] yields. *)

From Stdlib Require Import ZArith QArith Qabs Qfield Lqa List String Ascii Bool Lia ListSet.
From Stdlib Require Import Permutation DecimalString.
Import ListNotations.

Local Open Scope Z_scope.

(** ** Exceptions and fallible computations *)

Inductive exn : Set :=
| AssertionError
| ZeroDivisionError
| TypeError
| ValueError
| IndexError
| OverflowError.

Inductive res (A : Type) : Type :=
| Ret (a : A)
| Raise (e : exn).

Arguments Ret {A} a.
Arguments Raise {A} e.

Definition bind {A B : Type} (m : res A) (k : A -> res B) : res B :=
  match m with
  | Ret a => k a
  | Raise e => Raise e
  end.

Notation "x <- m ;; k" := (bind m (fun x => k))
  (at level 61, m at next level, right associativity).

(** A list comprehension whose element expression may raise: elements are
    evaluated left to right and the first exception aborts the whole list. *)
Fixpoint comprehension {A B : Type} (f : A -> res B) (l : list A) : res (list B) :=
  match l with
  | [] => Ret []
  | a :: l' => b <- f a ;; bs <- comprehension f l' ;; Ret (b :: bs)
  end.

(** [m] returns normally with a value equal (as a rational) to [q]. *)
Definition returns (m : res Q) (q : Q) : Prop :=
  exists q', m = Ret q' /\ (q' == q)%Q.

(** ** Python built-ins used by the module *)

(** [sum(l)] on integers: a left fold starting from 0. *)
Definition sum (l : list Z) : Z := fold_left Z.add l 0.

(** [sum(l)] on rationals. *)
Definition sumQ (l : list Q) : Q := fold_left Qplus l 0%Q.

(** [len(l)]. *)
Definition len {A : Type} (l : list A) : Z := Z.of_nat (List.length l).

(** [l[:stop]]: a negative [stop] counts from the end of the list. *)
Definition slice_to {A : Type} (l : list A) (stop : Z) : list A :=
  if stop <? 0 then firstn (Z.to_nat (len l + stop)) l
  else firstn (Z.to_nat stop) l.

(** [enumerate(l)], with the running index as an integer. *)
Fixpoint enumerate_from {A : Type} (i : Z) (l : list A) : list (Z * A) :=
  match l with
  | [] => []
  | a :: l' => (i, a) :: enumerate_from (i + 1) l'
  end.

Definition enumerate {A : Type} (l : list A) : list (Z * A) := enumerate_from 0 l.

(** [a / b]. *)
Definition true_div (a b : Q) : res Q :=
  if Qeq_bool b 0 then Raise ZeroDivisionError else Ret (a / b)%Q.

(** Binding of the positional arguments of a two-parameter function without
    defaults: a call that leaves a parameter unbound raises [TypeError]
    before the body runs. *)
Definition call2 {A B R : Type} (f : A -> B -> res R)
    (a : option A) (b : option B) : res R :=
  match a, b with
  | Some x, Some y => f x y
  | _, _ => Raise TypeError
  end.

(** ** mAP related metrics *)

(** [set(relevance).issubset({0,1})]. *)
Definition is_binary (relevance : list Z) : bool :=
  forallb (fun r => (r =? 0) || (r =? 1)) relevance.

Definition precision_at_k (relevance : list Z) (k : Z) : res Q :=
  if is_binary relevance
  then true_div (inject_Z (sum (slice_to relevance (k + 1)))) (inject_Z (k + 1))
  else Raise AssertionError.

(** [sum([rel_k*precision_at_k(relevance,k) for k,rel_k in enumerate(relevance)])] *)
Definition precision_total (relevance : list Z) : res Q :=
  terms <- comprehension
             (fun '(k, rel_k) =>
                p <- precision_at_k relevance k ;; Ret (inject_Z rel_k * p)%Q)
             (enumerate relevance) ;;
  Ret (sumQ terms).

Definition average_precision (relevance : list Z) (n_relevant : Z) : res Q :=
  if sum relevance =? n_relevant then
    if n_relevant =? 0 then Ret 0%Q
    else
      total <- precision_total relevance ;;
      true_div total (inject_Z n_relevant)
  else Raise AssertionError.

(** The least integer whose conversion to a float overflows: [float(i)]
    raises [OverflowError] exactly when [abs(i)] reaches it (the midpoint
    between the largest float and 2^1024, which rounds up). *)
Definition float_overflow_bound : Z := 2 ^ 1024 - 2 ^ 970.

(** In [total / normalization] the float [total] is divided by an integer,
    which is first converted to a float.  [normalization] is at most
    [n = len(relevance)], and a list has fewer than 2^63 elements, so the
    conversion can only overflow on the negative side. *)
Definition average_precision_at_n (relevance : list Z) (n : Z)
    (n_relevant : option Z) : res Q :=
  if 0 <? n then
    if len relevance =? n then
      if sum relevance =? 0 then Ret 0%Q
      else
        total <- precision_total relevance ;;
        let normalization :=
          match n_relevant with
          | Some m => Z.min n m
          | None => n
          end in
        if normalization <=? - float_overflow_bound then Raise OverflowError
        else true_div total (inject_Z normalization)
    else Raise AssertionError
  else Raise AssertionError.

(** The table of [test_average_precision_at_n] and its tolerance. *)
Definition average_precision_at_n_tests : list (list Z * Z * Z * Q) :=
  [ ([0;0;0;0;0;0], 6, 10, (0 # 1)%Q);
    ([1;1;0;0;0;0], 6,  2, (1 # 1)%Q);
    ([0;0;0;0;1;1], 6,  2, (266 # 1000)%Q);
    ([0;1;0;1;0;0], 6,  2, (5 # 10)%Q);
    ([1;0;0;1;0;1], 6,  3, (666 # 1000)%Q);
    ([1;1;1;0;0],   5,  8, (6 # 10)%Q) ].

Definition within_tolerance (m : res Q) (answer : Q) : bool :=
  match m with
  | Ret q => Qle_bool (Qabs (q - answer)) (1 # 1000)
  | Raise _ => false
  end.

Definition test_average_precision_at_n : bool :=
  forallb
    (fun '(relevance, n, n_relevant, answer) =>
       within_tolerance (average_precision_at_n relevance n (Some n_relevant)) answer)
    average_precision_at_n_tests.

(** [sum([label_map[1] for label_map in label_maps])/len(label_maps)]; the
    sum and the quotient are exact here, so nothing is stated about this
    function that rounding could change. *)
Definition calculate_macro_map (label_maps : list (string * Q * Z)) : res Q :=
  true_div (sumQ (map (fun label_map => snd (fst label_map)) label_maps))
           (inject_Z (len label_maps)).

(** ** The label store *)

(** [s.split(",")] *)
Fixpoint split_comma (s : string) : list string :=
  match s with
  | EmptyString => [EmptyString]
  | String c s' =>
      if Ascii.eqb c ","%char then EmptyString :: split_comma s'
      else match split_comma s' with
           | t :: ts => String c t :: ts
           | [] => [String c EmptyString]
           end
  end.

(** [set(l)] and the set operations the module uses. *)
Definition py_set (l : list string) : set string :=
  fold_left (fun acc x => set_add string_dec x acc) l (empty_set string).

Definition intersection (a b : set string) : set string :=
  set_inter string_dec a b.

Definition contains (x : string) (a : set string) : bool :=
  set_mem string_dec x a.

(** A row of the tag dataframe: the clip id and its comma-joined labels. *)
Record row : Set := { fname : Z; labels : string }.

Definition DataFrame : Set := list row.

(** [df[df["fname"]==int(fname)]["labels"].values[0].split(",")] as a set;
    indexing the empty selection raises [IndexError]. *)
Definition get_labels (query : Z) (df : DataFrame) : res (set string) :=
  match filter (fun r => fname r =? query)%Z df with
  | r :: _ => Ret (py_set (split_comma (labels r)))
  | [] => Raise IndexError
  end.

(** *** The regular expression of [find_indices_containing_label]

    The pattern the function compiles is
    [(?:\Alabel,|,label,|,label\Z|\Alabel\Z)] with [label] escaped by
    [re.escape], hence matched literally: an alternation of sequences of
    anchors and literals. *)
Inductive regex_item : Set :=
| BeginString               (* \A *)
| EndString                 (* \Z *)
| Literal (s : string).

Definition regex : Set := list (list regex_item).

Fixpoint strip_prefix (p s : string) : option string :=
  match p with
  | EmptyString => Some s
  | String a p' =>
      match s with
      | EmptyString => None
      | String b s' => if Ascii.eqb a b then strip_prefix p' s' else None
      end
  end.

(** Match a sequence at position [pos] of the subject, [rest] being the
    subject from [pos] on. *)
Fixpoint match_items (items : list regex_item) (pos : nat) (rest : string) : bool :=
  match items with
  | [] => true
  | BeginString :: items' => Nat.eqb pos 0 && match_items items' pos rest
  | EndString :: items' =>
      match rest with
      | EmptyString => match_items items' pos rest
      | String _ _ => false
      end
  | Literal l :: items' =>
      match strip_prefix l rest with
      | Some rest' => match_items items' (pos + String.length l) rest'
      | None => false
      end
  end.

(** [re.search]: is there a position at which some alternative matches. *)
Fixpoint search_from (re : regex) (pos : nat) (rest : string) : bool :=
  existsb (fun alt => match_items alt pos rest) re
  || match rest with
     | EmptyString => false
     | String _ rest' => search_from re (S pos) rest'
     end.

Definition search (re : regex) (s : string) : bool := search_from re 0 s.

Definition label_pattern (label : string) : regex :=
  [ [BeginString; Literal label; Literal ","%string];
    [Literal ","%string; Literal label; Literal ","%string];
    [Literal ","%string; Literal label; EndString];
    [BeginString; Literal label; EndString] ].

(** [df["labels"].str.contains(pattern)]: one boolean per row. *)
Definition find_indices_containing_label (label : string) (df : DataFrame) : list bool :=
  map (fun r => search (label_pattern label) (labels r)) df.

(** ** Relevance *)

Local Open Scope Z_scope.

(** One retrieved result; only its ["result_fname"] field is read. *)
Record result_entry : Set := { result_fname : Z }.

(** [results_dict.items()]: the queries in insertion order. *)
Definition results_dict : Set := list (Z * list result_entry).

Definition relevance_of (query_item_labels ref_item_labels : set string)
    (query_label : option string) : Z :=
  match query_label with
  | None =>
      if 0 <? len (intersection query_item_labels ref_item_labels) then 1 else 0
  | Some l =>
      if contains l ref_item_labels then 1 else 0
  end.

Fixpoint relevance_loop (query_item_labels : set string) (result : list result_entry)
    (df : DataFrame) (query_label : option string) : res (list Z) :=
  match result with
  | [] => Ret []
  | ref_result :: result' =>
      ref_item_labels <- get_labels (result_fname ref_result) df ;;
      relevance <- relevance_loop query_item_labels result' df query_label ;;
      Ret (relevance_of query_item_labels ref_item_labels query_label :: relevance)
  end.

Definition evaluate_relevance (query_fname : Z) (result : list result_entry)
    (df : DataFrame) (query_label : option string) : res (list Z) :=
  query_item_labels <- get_labels query_fname df ;;
  relevance_loop query_item_labels result df query_label.

(** ** Aggregates *)

(** The call [average_precision(relevance)] of the aggregate functions binds
    only the first of the two parameters. *)
Definition calculate_micro_map_at_k (results : results_dict) (df : DataFrame)
    (k : Z) : res Q :=
  aps <- comprehension
           (fun '(query_fname, result) =>
              relevance <- evaluate_relevance query_fname (slice_to result k) df None ;;
              call2 average_precision (Some relevance) None)
           results ;;
  true_div (sumQ aps) (inject_Z (len aps)).

(** ** Ranking related metrics *)

(** [R1] returns the rank of the first match or [None]. *)
Fixpoint R1_loop (query_labels : set string) (i : Z) (result : list result_entry)
    (df : DataFrame) : res (option Z) :=
  match result with
  | [] => Ret None
  | ref_result :: result' =>
      ref_labels <- get_labels (result_fname ref_result) df ;;
      if 0 <? len (intersection query_labels ref_labels) then Ret (Some i)
      else R1_loop query_labels (i + 1) result' df
  end.

Definition R1 (query_fname : Z) (result : list result_entry) (df : DataFrame)
    : res (option Z) :=
  query_labels <- get_labels query_fname df ;;
  R1_loop query_labels 0 result df.

(** Truth value of an [R1] result: [None] and [0] are both false. *)
Definition truthy (x : option Z) : bool :=
  match x with
  | Some i => negb (i =? 0)
  | None => false
  end.

(** The integers of a list that holds no [None]. *)
Definition ranks (r1s : list (option Z)) : list Z :=
  flat_map (fun x => match x with Some i => [i] | None => [] end) r1s.

Definition calculate_MR1 (results : results_dict) (df : DataFrame) : res Q :=
  r1s <- comprehension (fun '(query_fname, result) => R1 query_fname result df) results ;;
  let r1s := filter truthy r1s in
  true_div (inject_Z (sum (ranks r1s))) (inject_Z (len r1s)).

(** ** Reference definitions, following the specification's wording *)

(** Spec 4.2: (sum of relevance[0..k] inclusive) / (k+1). *)
Definition precision_spec (relevance : list Z) (k : nat) : Q :=
  (inject_Z (sum (firstn (S k) relevance)) / inject_Z (Z.of_nat k + 1))%Q.

(** The positions [k] with [relevance[k] = 1], in increasing order. *)
Definition relevant_positions (relevance : list Z) : list nat :=
  filter (fun k => nth k relevance 0 =? 1) (seq 0 (List.length relevance)).

(** Spec 4.2: the sum, over each position k where relevance[k]=1, of
    precision_at_k(relevance, k). *)
Definition relevant_precision_sum (relevance : list Z) : Q :=
  sumQ (map (precision_spec relevance) (relevant_positions relevance)).

(** ** Auxiliary forms used in the proofs *)

(** The element [rel_k*precision_at_k(relevance,k)] of the comprehension in
    [average_precision], once the assertion of [precision_at_k] has passed. *)
Definition precision_term (relevance : list Z) (kr : Z * Z) : Q :=
  (inject_Z (snd kr)
   * (inject_Z (sum (firstn (Z.to_nat (fst kr + 1)) relevance)) / inject_Z (fst kr + 1)))%Q.

(** The same total computed in one pass: [a] relevant items have been seen
    before position [pos]. *)
Fixpoint running_total (a pos : Z) (l : list Z) : Q :=
  match l with
  | [] => 0%Q
  | r :: l' =>
      (inject_Z r * (inject_Z (a + r) / inject_Z (pos + 1))
       + running_total (a + r) (pos + 1) l')%Q
  end.

(** The sum of [r / (k + 1)] over the elements [r] of [l], [l] starting at
    position [pos]. *)
Fixpoint rank_weight (pos : Z) (l : list Z) : Q :=
  match l with
  | [] => 0%Q
  | r :: l' => (inject_Z r / inject_Z (pos + 1) + rank_weight (pos + 1) l')%Q
  end.

(** [l[i] = x] *)
Fixpoint update {A : Type} (l : list A) (i : nat) (x : A) : list A :=
  match l, i with
  | [], _ => []
  | _ :: l', O => x :: l'
  | a :: l', S i' => a :: update l' i' x
  end.

(** [l[i], l[j] = l[j], l[i]] *)
Definition swap (l : list Z) (i j : nat) : list Z :=
  update (update l i (nth j l 0)) j (nth i l 0).

(** ** Predicates and reference values used in the statements *)

Definition binary (relevance : list Z) : Prop :=
  Forall (fun r => r = 0 \/ r = 1) relevance.

(** The normalization chosen by [average_precision_at_n]. *)
Definition normalization_of (n : Z) (n_relevant : option Z) : Z :=
  match n_relevant with
  | Some m => Z.min n m
  | None => n
  end.

(** The mAP@k column of the label table. *)
Definition map_at_k_column (label_maps : list (string * Q * Z)) : list Q :=
  map (fun label_map => snd (fst label_map)) label_maps.

(** The relevance criterion of the specification. *)
Definition relevant (query_item_labels ref_item_labels : set string)
    (query_label : option string) : Prop :=
  match query_label with
  | None => exists x, set_In x query_item_labels /\ set_In x ref_item_labels
  | Some l => set_In l ref_item_labels
  end.

(** The row that the label store holds for an identifier: the first row
    of the dataframe with that [fname]. *)
Definition row_of (df : DataFrame) (id : Z) : option row :=
  find (fun r => fname r =? id) df.

(** Every identifier of the result list resolves in the label store. *)
Definition resolves (df : DataFrame) (result : list result_entry) : Prop :=
  Forall (fun ref => exists s, get_labels (result_fname ref) df = Ret s) result.

(** Spec 4.3, MR1: compute R1 for every query, discard the queries with no
    match, report the mean of the remaining ranks. *)
Definition MR1_spec (results : results_dict) (df : DataFrame) : res Q :=
  r1s <- comprehension (fun '(query_fname, result) => R1 query_fname result df) results ;;
  let matched := filter (fun x => match x with Some _ => true | None => false end) r1s in
  true_div (inject_Z (sum (ranks matched))) (inject_Z (len matched)).

(** Spec 4.3, micro mAP@k: per query, truncate to k, evaluate the default
    relevance, take AP with n_relevant = sum(relevance); then the mean. *)
Definition micro_map_at_k_spec (results : results_dict) (df : DataFrame)
    (k : Z) : res Q :=
  aps <- comprehension
           (fun '(query_fname, result) =>
              relevance <- evaluate_relevance query_fname (slice_to result k) df None ;;
              average_precision relevance (sum relevance))
           results ;;
  true_div (sumQ aps) (inject_Z (len aps)).

(** A label store and a result store with one query answered at rank 0 and
    one answered at rank 2. *)
Definition df_example : DataFrame :=
  [ {| fname := 1; labels := "dog,bark" |};
    {| fname := 2; labels := "dog" |};
    {| fname := 3; labels := "cat" |};
    {| fname := 4; labels := "cat,meow" |} ].

Definition results_example : results_dict :=
  [ (1, [ {| result_fname := 2 |}; {| result_fname := 3 |} ]);
    (3, [ {| result_fname := 1 |}; {| result_fname := 2 |}; {| result_fname := 4 |} ]) ].

Fixpoint comma_free (s : string) : bool :=
  match s with
  | EmptyString => true
  | String c s' => negb (Ascii.eqb c ","%char) && comma_free s'
  end.

(** [s] begins with [label] followed by a comma or by the end of [s]. *)
Definition begins_token (label s : string) : bool :=
  match strip_prefix label s with
  | Some EmptyString => true
  | Some (String c _) => Ascii.eqb c ","%char
  | None => false
  end.

(** Some comma of [s] is followed by the token [label]. *)
Fixpoint token_after_comma (label s : string) : bool :=
  match s with
  | EmptyString => false
  | String c s' =>
      (Ascii.eqb c ","%char && begins_token label s') || token_after_comma label s'
  end.

(** [label in s.split(",")] *)
Definition is_token (label s : string) : bool :=
  existsb (String.eqb label) (split_comma s).

(** ** Per-label mAP

    [calculate_map_at_k_for_labels] adds a dictionary lookup to the
    computations above, and with it the [KeyError] of a missing key. *)
Inductive lookup_exn : Set :=
| KeyError
| Other (e : exn).

Inductive outcome (A : Type) : Type :=
| Done (a : A)
| Failed (e : lookup_exn).

Arguments Done {A} a.
Arguments Failed {A} e.

Definition lift {A : Type} (m : res A) : outcome A :=
  match m with
  | Ret a => Done a
  | Raise e => Failed (Other e)
  end.

Definition and_then {A B : Type} (m : outcome A) (k : A -> outcome B) : outcome B :=
  match m with
  | Done a => k a
  | Failed e => Failed e
  end.

Notation "x <~ m ;; k" := (and_then m (fun x => k))
  (at level 61, m at next level, right associativity).

(** A loop that appends one computed element per iteration. *)
Fixpoint for_each {A B : Type} (f : A -> outcome B) (l : list A) : outcome (list B) :=
  match l with
  | [] => Done []
  | a :: l' => b <~ f a ;; bs <~ for_each f l' ;; Done (b :: bs)
  end.

(** A dictionary key as the lookup sees it: a string or an integer, never
    equal to one another. *)
Inductive py_key : Set :=
| KStr (s : string)
| KInt (i : Z).

Definition py_key_eqb (a b : py_key) : bool :=
  match a, b with
  | KStr s, KStr t => String.eqb s t
  | KInt i, KInt j => i =? j
  | _, _ => false
  end.

(** [str(i)]: the decimal representation of an integer. *)
Definition str (i : Z) : string := NilZero.string_of_int (Z.to_int i).

(** The results store with its keys as they are. *)
Definition keyed_results : Set := list (py_key * list result_entry).

(** [results_dict[key]] *)
Fixpoint dict_get (results : keyed_results) (key : py_key)
    : outcome (list result_entry) :=
  match results with
  | [] => Failed KeyError
  | (k, v) :: results' => if py_key_eqb k key then Done v else dict_get results' key
  end.

(** [set([l for ls in df["labels"].apply(lambda x: x.split(",")).to_list() for l in ls])] *)
Definition all_labels (df : DataFrame) : set string :=
  py_set (flat_map (fun r => split_comma (labels r)) df).

(** [df[mask]["fname"].to_list()] *)
Definition select_fnames (mask : list bool) (df : DataFrame) : list Z :=
  map (fun selected => fname (snd selected)) (filter fst (combine mask df)).

(** [label_maps.sort(key=lambda x: x[1], reverse=True)]: descending by
    the second component, entries with equal keys keeping their order. *)
Fixpoint insert_by_map (x : string * Q * Z) (sorted : list (string * Q * Z))
    : list (string * Q * Z) :=
  match sorted with
  | [] => [x]
  | y :: sorted' =>
      if Qle_bool (snd (fst y)) (snd (fst x)) then x :: y :: sorted'
      else y :: insert_by_map x sorted'
  end.

Definition sort_by_map (label_maps : list (string * Q * Z)) : list (string * Q * Z) :=
  fold_right insert_by_map [] label_maps.

(** The body of the loop over the labels. *)
Definition label_map_entry (results : keyed_results) (df : DataFrame) (k : Z)
    (query_label : string) : outcome (string * Q * Z) :=
  let fnames_with_label :=
    select_fnames (find_indices_containing_label query_label df) df in
  label_aps <~ for_each
                 (fun query_fname =>
                    result <~ dict_get results (KStr (str query_fname)) ;;
                    lift (relevance <- evaluate_relevance query_fname (slice_to result k)
                                         df (Some query_label) ;;
                          call2 average_precision (Some relevance) None))
                 fnames_with_label ;;
  label_map_at_k <~ lift (true_div (sumQ label_aps) (inject_Z (len label_aps))) ;;
  Done (query_label, label_map_at_k, len fnames_with_label).

(** [iteration] is the order in which the loop [for query_label in labels]
    visits the set of labels, which Python leaves unspecified. *)
Definition calculate_map_at_k_for_labels (iteration : list string)
    (results : keyed_results) (df : DataFrame) (k : Z)
    : outcome (list (string * Q * Z) * list string) :=
  label_maps <~ for_each (label_map_entry results df k) iteration ;;
  Done (sort_by_map label_maps, ["label"; "map@15"; "occurance"]%string).

(** The index of the first 1 of a relevance list, counted from [i]. *)
Fixpoint first_one_from (i : Z) (relevance : list Z) : option Z :=
  match relevance with
  | [] => None
  | r :: relevance' => if r =? 1 then Some i else first_one_from (i + 1) relevance'
  end.

(** The result resolves and shares no label with the query. *)
Definition no_match (df : DataFrame) (query_labels : set string)
    (ref : result_entry) : Prop :=
  exists s, get_labels (result_fname ref) df = Ret s
            /\ ~ relevant query_labels s None.

(** * Properties *)

(** ** Sums *)

Lemma fold_add_shift (l : list Z) (a : Z) :
  fold_left Z.add l a = a + fold_left Z.add l 0.
Proof.
  revert a. induction l as [|x l IH]; intros a; simpl.
  - lia.
  - rewrite IH. rewrite (IH x). lia.
Qed.

Lemma sum_nil : sum [] = 0.
Proof. reflexivity. Qed.

Lemma sum_cons (x : Z) (l : list Z) : sum (x :: l) = x + sum l.
Proof. unfold sum. simpl. apply fold_add_shift. Qed.

Lemma sum_app (l1 l2 : list Z) : sum (l1 ++ l2) = sum l1 + sum l2.
Proof.
  induction l1 as [|x l1 IH]; simpl.
  - reflexivity.
  - rewrite !sum_cons, IH. lia.
Qed.

Lemma fold_Qplus_shift (l : list Q) (a : Q) :
  (fold_left Qplus l a == a + fold_left Qplus l 0)%Q.
Proof.
  revert a. induction l as [|x l IH]; intros a; simpl.
  - ring.
  - rewrite IH. rewrite (IH (0 + x)%Q). ring.
Qed.

Lemma sumQ_cons (x : Q) (l : list Q) : (sumQ (x :: l) == x + sumQ l)%Q.
Proof.
  unfold sumQ. simpl. rewrite fold_Qplus_shift. ring.
Qed.

(** ** Binary relevance lists *)

Lemma is_binary_iff (relevance : list Z) :
  is_binary relevance = true <-> binary relevance.
Proof.
  unfold is_binary, binary. rewrite forallb_forall, Forall_forall.
  split; intros H r Hr; specialize (H r Hr).
  - apply orb_true_iff in H. destruct H as [H|H]; apply Z.eqb_eq in H; auto.
  - apply orb_true_iff. destruct H as [H|H]; [left|right]; now apply Z.eqb_eq.
Qed.

Lemma binary_sum_nonneg (l : list Z) : binary l -> 0 <= sum l.
Proof.
  induction 1 as [|x l Hx _ IH].
  - rewrite sum_nil. lia.
  - rewrite sum_cons. lia.
Qed.

Lemma binary_app (l1 l2 : list Z) : binary (l1 ++ l2) <-> binary l1 /\ binary l2.
Proof. apply Forall_app. Qed.

Lemma binary_sum_zero (l : list Z) :
  binary l -> (sum l = 0 <-> ~ In 1 l).
Proof.
  induction 1 as [|x l Hx Hl IH].
  - rewrite sum_nil. simpl. tauto.
  - rewrite sum_cons. simpl. pose proof (binary_sum_nonneg _ Hl).
    split.
    + intros Hs [H1|H1]; [lia|]. apply IH; [lia|assumption].
    + intros Hn. destruct Hx as [-> | ->]; [|tauto].
      apply IH. tauto.
Qed.

(** ** Division *)

Lemma true_div_nonzero (a : Q) (b : Z) :
  b <> 0 -> true_div a (inject_Z b) = Ret (a / inject_Z b)%Q.
Proof.
  intros Hb. unfold true_div.
  destruct (Qeq_bool (inject_Z b) 0) eqn:E; [|reflexivity].
  apply Qeq_bool_iff in E. unfold Qeq, inject_Z in E. simpl in E. lia.
Qed.

(** ** [precision_at_k] *)

Lemma slice_to_nonneg {A : Type} (l : list A) (stop : Z) :
  0 <= stop -> slice_to l stop = firstn (Z.to_nat stop) l.
Proof.
  intros H. unfold slice_to. destruct (stop <? 0) eqn:E; [|reflexivity].
  apply Z.ltb_lt in E. lia.
Qed.

Lemma precision_at_k_value (relevance : list Z) (k : Z) :
  is_binary relevance = true -> 0 <= k ->
  precision_at_k relevance k =
  Ret (inject_Z (sum (firstn (Z.to_nat (k + 1)) relevance)) / inject_Z (k + 1))%Q.
Proof.
  intros Hb Hk. unfold precision_at_k. rewrite Hb.
  rewrite slice_to_nonneg by lia. apply true_div_nonzero. lia.
Qed.

Lemma precision_at_k_nat (relevance : list Z) (k : nat) :
  is_binary relevance = true ->
  precision_at_k relevance (Z.of_nat k) = Ret (precision_spec relevance k).
Proof.
  intros Hb. rewrite precision_at_k_value by (assumption || lia).
  unfold precision_spec. replace (Z.to_nat (Z.of_nat k + 1)) with (S k) by lia.
  reflexivity.
Qed.

(** ** The total of [average_precision] on binary lists *)

Lemma comprehension_terms (relevance l : list Z) (i : Z) :
  is_binary relevance = true -> 0 <= i ->
  comprehension
    (fun '(k, rel_k) =>
       p <- precision_at_k relevance k ;; Ret (inject_Z rel_k * p)%Q)
    (enumerate_from i l)
  = Ret (map (precision_term relevance) (enumerate_from i l)).
Proof.
  intros Hb. revert i. induction l as [|r l IH]; intros i Hi; simpl.
  - reflexivity.
  - rewrite precision_at_k_value by assumption. simpl.
    rewrite IH by lia. reflexivity.
Qed.

Lemma precision_total_binary (relevance : list Z) :
  is_binary relevance = true ->
  precision_total relevance
  = Ret (sumQ (map (precision_term relevance) (enumerate relevance))).
Proof.
  intros Hb. unfold precision_total, enumerate.
  rewrite comprehension_terms by (assumption || lia). reflexivity.
Qed.

Lemma len_app {A : Type} (l1 l2 : list A) : len (l1 ++ l2) = len l1 + len l2.
Proof. unfold len. rewrite length_app. lia. Qed.

Lemma firstn_prefix_one (p l : list Z) (r : Z) :
  firstn (Z.to_nat (len p + 1)) (p ++ r :: l) = p ++ [r].
Proof.
  unfold len. replace (Z.to_nat (Z.of_nat (List.length p) + 1)) with (List.length p + 1)%nat by lia.
  rewrite firstn_app_2. reflexivity.
Qed.

(** The comprehension, taken over the suffix [l] of [p ++ l], is the one-pass
    total started after [p]. *)
Lemma terms_running (l p : list Z) :
  (sumQ (map (precision_term (p ++ l)) (enumerate_from (len p) l))
   == running_total (sum p) (len p) l)%Q.
Proof.
  revert p. induction l as [|r l IH]; intros p; simpl.
  - reflexivity.
  - rewrite sumQ_cons. unfold precision_term at 1. simpl fst. simpl snd.
    rewrite firstn_prefix_one, sum_app, sum_cons, sum_nil, Z.add_0_r.
    specialize (IH (p ++ [r])).
    rewrite <- app_assoc in IH. simpl in IH.
    rewrite len_app, sum_app, sum_cons, sum_nil, Z.add_0_r in IH.
    change (len [r]) with 1 in IH.
    rewrite IH. reflexivity.
Qed.

Lemma precision_total_running (relevance : list Z) :
  is_binary relevance = true ->
  returns (precision_total relevance) (running_total 0 0 relevance).
Proof.
  intros Hb. rewrite precision_total_binary by assumption.
  eexists. split; [reflexivity|].
  apply (terms_running relevance []).
Qed.

Lemma precision_term_spec (relevance : list Z) (k : nat) (r : Z) :
  precision_term relevance (Z.of_nat k, r)
  = (inject_Z r * precision_spec relevance k)%Q.
Proof.
  unfold precision_term, precision_spec. simpl fst. simpl snd.
  replace (Z.to_nat (Z.of_nat k + 1)) with (S k) by lia. reflexivity.
Qed.

(** The comprehension keeps exactly the terms of the relevant positions. *)
Lemma terms_relevant (relevance l p : list Z) :
  relevance = p ++ l -> binary l ->
  (sumQ (map (precision_term relevance) (enumerate_from (len p) l))
   == sumQ (map (precision_spec relevance)
              (filter (fun k => (nth k relevance 0 =? 1)%Z)
                      (seq (List.length p) (List.length l)))))%Q.
Proof.
  revert p. induction l as [|r l IH]; intros p Hrel Hb.
  - reflexivity.
  - apply Forall_cons_iff in Hb. destruct Hb as [Hr Hl].
    cbn [enumerate_from map List.length seq filter].
    assert (Hn : nth (List.length p) relevance 0 = r)
      by (rewrite Hrel; apply nth_middle).
    rewrite Hn, sumQ_cons.
    assert (Hrest :
      (sumQ (map (precision_term relevance) (enumerate_from (len p + 1) l))
       == sumQ (map (precision_spec relevance)
                  (filter (fun k => (nth k relevance 0 =? 1)%Z)
                          (seq (S (List.length p)) (List.length l)))))%Q).
    { specialize (IH (p ++ [r])).
      rewrite len_app, length_app in IH. change (len [r]) with 1 in IH.
      simpl List.length in IH.
      replace (List.length p + 1)%nat with (S (List.length p)) in IH by lia.
      apply IH; [|assumption].
      rewrite <- app_assoc. exact Hrel. }
    rewrite Hrest. unfold len at 1. rewrite precision_term_spec.
    destruct Hr as [-> | ->]; simpl (_ =? _); cbv iota.
    + change (inject_Z 0) with 0%Q. ring.
    + cbn [map]. rewrite sumQ_cons. change (inject_Z 1) with 1%Q. ring.
Qed.

Lemma precision_total_relevant (relevance : list Z) :
  is_binary relevance = true ->
  returns (precision_total relevance) (relevant_precision_sum relevance).
Proof.
  intros Hb. rewrite precision_total_binary by assumption.
  eexists. split; [reflexivity|].
  apply (terms_relevant relevance relevance []); [reflexivity|].
  now apply is_binary_iff.
Qed.

(** ** [average_precision] and [average_precision_at_n] *)

Lemma returns_div (m : res Q) (t : Q) (d : Z) :
  returns m t -> d <> 0 ->
  returns (total <- m ;; true_div total (inject_Z d)) (t / inject_Z d).
Proof.
  intros (q & -> & Hq) Hd. simpl. rewrite true_div_nonzero by assumption.
  eexists. split; [reflexivity|]. rewrite Hq. reflexivity.
Qed.

Lemma binary_has_one (l : list Z) : binary l -> In 1 l -> 0 < len l /\ sum l <> 0.
Proof.
  intros Hb H1. split.
  - destruct l; [contradiction|]. unfold len. simpl. lia.
  - intros Hs. now apply (binary_sum_zero _ Hb) in Hs.
Qed.

(** C9 (as the code has it): a value outside {0,1} makes [precision_at_k]
    fail its assertion, i.e. raise [AssertionError]; on a 0/1 list and a
    zero-based [k] it returns (sum of relevance[0..k] inclusive) / (k+1). *)
Theorem precision_at_k_contract (relevance : list Z) (k : Z) :
  (~ binary relevance -> precision_at_k relevance k = Raise AssertionError)
  /\ (binary relevance -> 0 <= k ->
      precision_at_k relevance k
      = Ret (inject_Z (sum (firstn (Z.to_nat (k + 1)) relevance)) / inject_Z (k + 1))%Q).
Proof.
  split.
  - intros Hn. unfold precision_at_k.
    destruct (is_binary relevance) eqn:E; [|reflexivity].
    apply is_binary_iff in E. contradiction.
  - intros Hb Hk. apply precision_at_k_value; [|assumption].
    now apply is_binary_iff.
Qed.

Lemma precision_at_k_contract_witness :
  precision_at_k [0; 2] 0 = Raise AssertionError
  /\ precision_at_k [1; 0; 1] 1 = Ret (Qdiv (inject_Z (sum [1; 0])) (inject_Z 2)).
Proof.
  split.
  - apply (proj1 (precision_at_k_contract [0; 2] 0)).
    intros H. apply is_binary_iff in H. discriminate H.
  - apply (proj2 (precision_at_k_contract [1; 0; 1] 1)).
    + apply is_binary_iff. reflexivity.
    + lia.
Defined.

(** C9 as stated fails: the failure on a value outside {0,1} is not of the
    [ValueError] kind. *)
Lemma precision_at_k_not_ValueError :
  ~ binary [0; 2]
  /\ precision_at_k [0; 2] 0 = Raise AssertionError
  /\ precision_at_k [0; 2] 0 <> Raise ValueError.
Proof.
  split; [|split].
  - intros H. apply is_binary_iff in H. discriminate H.
  - reflexivity.
  - discriminate.
Qed.

Lemma precision_total_not_binary (relevance : list Z) :
  is_binary relevance = false -> precision_total relevance = Raise AssertionError.
Proof.
  intros Hb. unfold precision_total, enumerate.
  destruct relevance as [|r l]; [discriminate Hb|].
  cbn [enumerate_from comprehension]. unfold precision_at_k at 1.
  rewrite Hb. reflexivity.
Qed.

(** C5 (as the code has it): [average_precision] fails with
    [AssertionError] unless [sum(relevance) == n_relevant]; with
    [n_relevant = 0] it returns 0, in particular on the empty list;
    otherwise, on a 0/1 list, it returns the sum of precision_at_k over the
    relevant positions divided by [n_relevant], and on a list with a value
    outside {0,1} it fails with the [AssertionError] of [precision_at_k]. *)
Theorem average_precision_contract (relevance : list Z) (n_relevant : Z) :
  (sum relevance <> n_relevant ->
   average_precision relevance n_relevant = Raise AssertionError)
  /\ (sum relevance = n_relevant -> n_relevant = 0 ->
      average_precision relevance n_relevant = Ret 0%Q)
  /\ average_precision [] 0 = Ret 0%Q
  /\ (sum relevance = n_relevant -> n_relevant <> 0 -> binary relevance ->
      returns (average_precision relevance n_relevant)
              (relevant_precision_sum relevance / inject_Z n_relevant))
  /\ (sum relevance = n_relevant -> n_relevant <> 0 -> ~ binary relevance ->
      average_precision relevance n_relevant = Raise AssertionError).
Proof.
  unfold average_precision. repeat split.
  - intros H. apply Z.eqb_neq in H. now rewrite H.
  - intros H H0. apply Z.eqb_eq in H. rewrite H. subst n_relevant. reflexivity.
  - intros H H0 Hb. apply Z.eqb_eq in H. rewrite H.
    apply Z.eqb_neq in H0. rewrite H0. apply Z.eqb_neq in H0.
    apply returns_div; [|assumption].
    apply precision_total_relevant. now apply is_binary_iff.
  - intros H H0 Hnb. apply Z.eqb_eq in H. rewrite H.
    apply Z.eqb_neq in H0. rewrite H0.
    rewrite precision_total_not_binary; [reflexivity|].
    destruct (is_binary relevance) eqn:E; [|reflexivity].
    apply is_binary_iff in E. contradiction.
Qed.

Lemma average_precision_contract_witness :
  average_precision [1; 0; 1] 3 = Raise AssertionError
  /\ average_precision [0; 0] 0 = Ret 0%Q
  /\ returns (average_precision [1; 0; 1] 2)
             (relevant_precision_sum [1; 0; 1] / inject_Z 2)
  /\ average_precision [0; 2] 2 = Raise AssertionError.
Proof.
  split; [|split; [|split]].
  - apply (proj1 (average_precision_contract [1; 0; 1] 3)). discriminate.
  - apply (proj1 (proj2 (average_precision_contract [0; 0] 0))); reflexivity.
  - apply (proj1 (proj2 (proj2 (proj2 (average_precision_contract [1; 0; 1] 2))))).
    + reflexivity.
    + discriminate.
    + apply is_binary_iff. reflexivity.
  - apply (proj2 (proj2 (proj2 (proj2 (average_precision_contract [0; 2] 2))))).
    + reflexivity.
    + discriminate.
    + intros H. apply is_binary_iff in H. discriminate H.
Defined.

(** C5 as stated fails: with [sum(relevance) == n_relevant] and
    [n_relevant] not 0 the call need not return.  On [0; 2] no position
    holds a 1, so the stated value is 0/2, but the call raises. *)
Lemma average_precision_no_quotient :
  sum [0; 2] = 2
  /\ relevant_positions [0; 2] = []
  /\ average_precision [0; 2] 2 = Raise AssertionError
  /\ (forall q, average_precision [0; 2] 2 <> Ret q).
Proof.
  split; [reflexivity|]. split; [reflexivity|]. split; [reflexivity|].
  intros q. discriminate.
Qed.

Lemma float_overflow_bound_pos : 0 < float_overflow_bound.
Proof. vm_compute. reflexivity. Qed.

Lemma in_float_range (d : Z) :
  - float_overflow_bound < d -> (d <=? - float_overflow_bound) = false.
Proof. intros H. apply Z.leb_gt. assumption. Qed.

Lemma average_precision_at_n_relevant (relevance : list Z) (n : Z)
    (n_relevant : option Z) :
  binary relevance -> len relevance = n -> In 1 relevance ->
  exists total,
    (total == relevant_precision_sum relevance)%Q
    /\ average_precision_at_n relevance n n_relevant
       = if normalization_of n n_relevant <=? - float_overflow_bound
         then Raise OverflowError
         else true_div total (inject_Z (normalization_of n n_relevant)).
Proof.
  intros Hb Hlen H1. destruct (binary_has_one _ Hb H1) as [Hpos Hsum].
  unfold average_precision_at_n.
  replace (0 <? n) with true by (symmetry; apply Z.ltb_lt; lia).
  replace (len relevance =? n) with true by (symmetry; now apply Z.eqb_eq).
  apply Z.eqb_neq in Hsum. rewrite Hsum.
  apply is_binary_iff in Hb.
  destruct (precision_total_relevant _ Hb) as (q & -> & Hq).
  exists q. split; [assumption|reflexivity].
Qed.

(** C4 (as the code has it): on a 0/1 list of length n > 0,
    [average_precision_at_n] returns 0 when the list holds no 1.
    Otherwise let d be min(n, n_relevant) when n_relevant is supplied and n
    when it is not: the call returns the sum of precision_at_k over the
    relevant positions divided by d when d is not 0 and lies in the range
    of floats; it raises [ZeroDivisionError] when d = 0 and
    [OverflowError] when d is at or below -(2^1024 - 2^970).  The two
    literal cases give 2/3 (within 0.001 of 0.666) and 0.6. *)
Theorem average_precision_at_n_contract (relevance : list Z) (n : Z)
    (n_relevant : option Z) :
  binary relevance -> 0 < n -> len relevance = n ->
  (~ In 1 relevance -> average_precision_at_n relevance n n_relevant = Ret 0%Q)
  /\ (In 1 relevance ->
      (normalization_of n n_relevant <= - float_overflow_bound ->
       average_precision_at_n relevance n n_relevant = Raise OverflowError)
      /\ (normalization_of n n_relevant = 0 ->
          average_precision_at_n relevance n n_relevant = Raise ZeroDivisionError)
      /\ (- float_overflow_bound < normalization_of n n_relevant ->
          normalization_of n n_relevant <> 0 ->
          returns (average_precision_at_n relevance n n_relevant)
                  (relevant_precision_sum relevance
                   / inject_Z (normalization_of n n_relevant))))
  /\ (returns (average_precision_at_n [1;0;0;1;0;1] 6 (Some 3)) (2 # 3)
      /\ (Qabs ((2 # 3) - (666 # 1000)) <= 1 # 1000)%Q)
  /\ returns (average_precision_at_n [1;1;1;0;0] 5 (Some 8)) (6 # 10).
Proof.
  intros Hb Hn Hlen. split; [|split; [|split; [split|]]].
  - intros H0. apply (binary_sum_zero _ Hb) in H0.
    unfold average_precision_at_n.
    replace (0 <? n) with true by (symmetry; apply Z.ltb_lt; lia).
    replace (len relevance =? n) with true by (symmetry; now apply Z.eqb_eq).
    rewrite H0. reflexivity.
  - intros H1.
    destruct (average_precision_at_n_relevant _ _ n_relevant Hb Hlen H1)
      as (total & Ht & Heq).
    pose proof float_overflow_bound_pos as Hbound.
    split; [|split].
    + intros Hlow. rewrite Heq. apply Z.leb_le in Hlow. now rewrite Hlow.
    + intros Hz. rewrite Heq, Hz, in_float_range by lia. reflexivity.
    + intros Hrange Hnz. rewrite Heq, in_float_range by assumption.
      rewrite true_div_nonzero by assumption.
      eexists. split; [reflexivity|]. rewrite Ht. reflexivity.
  - eexists. split; [vm_compute; reflexivity|]. reflexivity.
  - vm_compute. discriminate.
  - eexists. split; [vm_compute; reflexivity|]. reflexivity.
Qed.

Lemma average_precision_at_n_contract_witness :
  returns (average_precision_at_n [0;1;0;1;0;0] 6 (Some 2))
          (relevant_precision_sum [0;1;0;1;0;0] / inject_Z (normalization_of 6 (Some 2)))
  /\ average_precision_at_n [0;0;0;0;0;0] 6 (Some 10) = Ret 0%Q.
Proof.
  assert (Hb : forall l, is_binary l = true -> binary l)
    by (intros l; apply is_binary_iff).
  split.
  - apply (average_precision_at_n_contract [0;1;0;1;0;0] 6 (Some 2)).
    + apply Hb. reflexivity.
    + lia.
    + reflexivity.
    + simpl. tauto.
    + vm_compute. reflexivity.
    + discriminate.
  - apply (average_precision_at_n_contract [0;0;0;0;0;0] 6 (Some 10)).
    + apply Hb. reflexivity.
    + lia.
    + reflexivity.
    + simpl. intuition discriminate.
Defined.

(** C4 as stated fails: for some values of n_relevant the call returns no
    quotient at all, although the list is a 0/1 list of length n > 0 that
    holds a 1. *)
Lemma average_precision_at_n_no_quotient :
  binary [1] /\ len [1] = 1 /\ In 1 [1]
  /\ average_precision_at_n [1] 1 (Some 0) = Raise ZeroDivisionError
  /\ average_precision_at_n [1] 1 (Some (- 10 ^ 400)) = Raise OverflowError
  /\ (forall q, average_precision_at_n [1] 1 (Some 0) <> Ret q).
Proof.
  split; [apply is_binary_iff; reflexivity|].
  split; [reflexivity|]. split; [now left|].
  split; [vm_compute; reflexivity|].
  split; [vm_compute; reflexivity|].
  intros q. vm_compute. discriminate.
Qed.

(** C10: with [n_relevant = 0] and a relevant item in the list, the
    normalization is 0 and the unguarded division raises
    [ZeroDivisionError]: the call neither returns 0 nor fails an assertion. *)
Theorem average_precision_at_n_zero_relevant (relevance : list Z) (n : Z) :
  binary relevance -> len relevance = n -> In 1 relevance ->
  normalization_of n (Some 0) = 0
  /\ average_precision_at_n relevance n (Some 0) = Raise ZeroDivisionError.
Proof.
  intros Hb Hlen H1. destruct (binary_has_one _ Hb H1) as [Hpos _].
  assert (Hz : normalization_of n (Some 0) = 0) by (simpl; lia).
  split; [assumption|].
  destruct (average_precision_at_n_relevant _ _ (Some 0) Hb Hlen H1)
    as (total & _ & ->).
  pose proof float_overflow_bound_pos.
  rewrite Hz, in_float_range by lia. reflexivity.
Qed.

Lemma average_precision_at_n_zero_relevant_witness :
  average_precision_at_n [0; 1; 1] 3 (Some 0) = Raise ZeroDivisionError.
Proof.
  apply (average_precision_at_n_zero_relevant [0; 1; 1] 3).
  - apply is_binary_iff. reflexivity.
  - reflexivity.
  - simpl. tauto.
Defined.

(** ** Macro mAP *)

Lemma len_nonempty {A : Type} (l : list A) : l <> [] -> len l <> 0.
Proof. destruct l; [congruence|]. unfold len. simpl. lia. Qed.

(** C7: on a non-empty table [calculate_macro_map] returns the unweighted
    arithmetic mean of the mAP@k column; it depends on nothing but that
    column, so two labels with equal mAP@k yield that value whatever their
    occurrence counts. *)
Theorem calculate_macro_map_unweighted (label_maps : list (string * Q * Z)) :
  label_maps <> [] ->
  returns (calculate_macro_map label_maps)
          (sumQ (map_at_k_column label_maps) / inject_Z (len label_maps))
  /\ (forall label_maps',
        map_at_k_column label_maps' = map_at_k_column label_maps ->
        calculate_macro_map label_maps' = calculate_macro_map label_maps)
  /\ (forall l1 l2 v o1 o2,
        returns (calculate_macro_map [(l1, v, o1); (l2, v, o2)]) v).
Proof.
  intros Hne. split; [|split].
  - unfold calculate_macro_map.
    rewrite true_div_nonzero by now apply len_nonempty.
    eexists. split; reflexivity.
  - intros lm' Hcol. unfold calculate_macro_map. fold (map_at_k_column lm').
    fold (map_at_k_column label_maps). rewrite Hcol. do 2 f_equal.
    unfold len. rewrite <- (length_map (fun lm => snd (fst lm)) lm').
    fold (map_at_k_column lm'). rewrite Hcol.
    unfold map_at_k_column. now rewrite length_map.
  - intros l1 l2 v o1 o2. unfold calculate_macro_map.
    rewrite true_div_nonzero by discriminate.
    eexists. split; [reflexivity|].
    unfold sumQ, len. cbn [map fst snd fold_left List.length Z.of_nat Pos.of_succ_nat Pos.succ].
    change (inject_Z 2) with 2%Q. field.
Qed.

Lemma calculate_macro_map_unweighted_witness :
  returns (calculate_macro_map
             [("dog"%string, (1 # 2)%Q, 3); ("cat"%string, (1 # 2)%Q, 4000)])
          (1 # 2)%Q.
Proof.
  apply (calculate_macro_map_unweighted
           [("dog"%string, (1 # 2)%Q, 3); ("cat"%string, (1 # 2)%Q, 4000)]).
  discriminate.
Defined.

(** ** Label sets and relevance *)

Lemma py_set_fold_In (l : list string) (acc : set string) (x : string) :
  set_In x (fold_left (fun acc y => set_add string_dec y acc) l acc)
  <-> In x l \/ set_In x acc.
Proof.
  revert acc. induction l as [|y l IH]; intros acc; simpl.
  - tauto.
  - rewrite IH. unfold set_In. rewrite set_add_iff. intuition congruence.
Qed.

Lemma py_set_In (l : list string) (x : string) : set_In x (py_set l) <-> In x l.
Proof.
  unfold py_set. rewrite py_set_fold_In. simpl. tauto.
Qed.

Lemma intersection_nonempty (a b : set string) :
  (0 <? len (intersection a b)) = true <-> exists x, set_In x a /\ set_In x b.
Proof.
  unfold intersection, set_In. rewrite Z.ltb_lt. split.
  - destruct (set_inter string_dec a b) as [|x l] eqn:E.
    + unfold len. simpl. lia.
    + intros _. exists x. apply (set_inter_iff string_dec). rewrite E. now left.
  - intros (x & Hx). apply (set_inter_iff string_dec) in Hx.
    destruct (set_inter string_dec a b); [contradiction|].
    unfold len. simpl. lia.
Qed.

Lemma contains_iff (x : string) (a : set string) :
  contains x a = true <-> set_In x a.
Proof.
  unfold contains. split.
  - apply set_mem_correct1.
  - apply set_mem_correct2.
Qed.

Lemma relevance_of_spec (q s : set string) (query_label : option string) :
  (relevance_of q s query_label = 0 \/ relevance_of q s query_label = 1)
  /\ (relevance_of q s query_label = 1 <-> relevant q s query_label).
Proof.
  unfold relevance_of, relevant. destruct query_label as [l|].
  - rewrite <- contains_iff. destruct (contains l s); split; auto; split; try discriminate; reflexivity.
  - rewrite <- intersection_nonempty.
    destruct (0 <? len (intersection q s)); split; auto; split; try discriminate; reflexivity.
Qed.

Lemma relevance_loop_spec (q : set string) (df : DataFrame)
    (query_label : option string) (result : list result_entry) :
  resolves df result ->
  exists relevance,
    relevance_loop q result df query_label = Ret relevance
    /\ List.length relevance = List.length result
    /\ forall i ref s,
         nth_error result i = Some ref ->
         get_labels (result_fname ref) df = Ret s ->
         exists b, nth_error relevance i = Some b
                   /\ (b = 0 \/ b = 1)
                   /\ (b = 1 <-> relevant q s query_label).
Proof.
  induction 1 as [|ref result (s & Hs) _ (relevance & Hloop & Hlen & Hnth)].
  - exists []. split; [reflexivity | split; [reflexivity|]].
    intros i ref s Hi Hs. destruct i; discriminate Hi.
  - exists (relevance_of q s query_label :: relevance). simpl.
    rewrite Hs, Hloop. simpl. split; [reflexivity | split].
    + now rewrite Hlen.
    + intros [|i] ref' s' Hi Hs'; simpl in Hi.
      * injection Hi as <-. rewrite Hs in Hs'. injection Hs' as <-.
        eexists. split; [reflexivity|]. apply relevance_of_spec.
      * simpl. apply (Hnth i ref' s'); assumption.
Qed.

Lemma get_labels_row_of (id : Z) (df : DataFrame) :
  get_labels id df
  = match row_of df id with
    | Some r => Ret (py_set (split_comma (labels r)))
    | None => Raise IndexError
    end.
Proof.
  unfold get_labels, row_of. induction df as [|r df IH]; cbn [filter find].
  - reflexivity.
  - destruct (fname r =? id); [reflexivity | exact IH].
Qed.

(** C3: when the query and every result have a row in the label store,
    [evaluate_relevance] returns a 0/1 list of the length and order of the
    result list; without [query_label] position i is 1 iff the
    comma-separated labels of the query's row and of the row of result i
    have a label in common, and with [query_label] iff that label is one
    of the comma-separated labels of the row of result i, whatever the
    labels of the query. *)
Theorem evaluate_relevance_spec (query_fname : Z) (result : list result_entry)
    (df : DataFrame) (query_label : option string) (rq : row) :
  row_of df query_fname = Some rq ->
  Forall (fun ref => row_of df (result_fname ref) <> None) result ->
  exists relevance,
    evaluate_relevance query_fname result df query_label = Ret relevance
    /\ List.length relevance = List.length result
    /\ binary relevance
    /\ forall i ref r,
         nth_error result i = Some ref ->
         row_of df (result_fname ref) = Some r ->
         exists b, nth_error relevance i = Some b
                   /\ (b = 0 \/ b = 1)
                   /\ (b = 1 <->
                       match query_label with
                       | None =>
                           exists x, In x (split_comma (labels rq))
                                     /\ In x (split_comma (labels r))
                       | Some l => In l (split_comma (labels r))
                       end).
Proof.
  intros Hq Hrows.
  assert (Hres : resolves df result).
  { unfold resolves. apply Forall_forall. intros ref Hin.
    pose proof (proj1 (Forall_forall _ _) Hrows ref Hin) as Hne.
    cbv beta in Hne. rewrite get_labels_row_of.
    destruct (row_of df (result_fname ref)) as [r|]; [|now elim Hne].
    eexists. reflexivity. }
  destruct (relevance_loop_spec (py_set (split_comma (labels rq))) df query_label
              result Hres)
    as (relevance & Hloop & Hlen & Hnth).
  assert (Hbit : forall i ref r,
            nth_error result i = Some ref ->
            row_of df (result_fname ref) = Some r ->
            exists b, nth_error relevance i = Some b
                      /\ (b = 0 \/ b = 1)
                      /\ (b = 1 <->
                          match query_label with
                          | None =>
                              exists x, In x (split_comma (labels rq))
                                        /\ In x (split_comma (labels r))
                          | Some l => In l (split_comma (labels r))
                          end)).
  { intros i ref r Hi Hr.
    assert (Hs : get_labels (result_fname ref) df
                 = Ret (py_set (split_comma (labels r))))
      by (rewrite get_labels_row_of, Hr; reflexivity).
    destruct (Hnth i ref _ Hi Hs) as (b & Hb & Hbin & Hrel).
    exists b. split; [assumption|]. split; [assumption|].
    rewrite Hrel. unfold relevant. destruct query_label as [l|].
    - apply py_set_In.
    - split; intros (x & H1 & H2); exists x.
      + split; [exact (proj1 (py_set_In _ _) H1) | exact (proj1 (py_set_In _ _) H2)].
      + split; [exact (proj2 (py_set_In _ _) H1) | exact (proj2 (py_set_In _ _) H2)]. }
  exists relevance. unfold evaluate_relevance.
  rewrite get_labels_row_of, Hq. cbn [bind].
  split; [assumption | split; [assumption | split; [|exact Hbit]]].
  apply Forall_forall. intros b Hb.
  apply In_nth_error in Hb. destruct Hb as (i & Hi).
  assert (Hlt : (i < List.length result)%nat).
  { rewrite <- Hlen. apply nth_error_Some. congruence. }
  destruct (nth_error result i) as [ref|] eqn:Eref;
    [|apply nth_error_None in Eref; lia].
  pose proof (proj1 (Forall_forall _ _) Hrows ref (nth_error_In _ _ Eref)) as Hne.
  cbv beta in Hne.
  destruct (row_of df (result_fname ref)) as [r|] eqn:Er; [|now elim Hne].
  destruct (Hbit i ref r Eref Er) as (b' & Hb' & Hbin & _). congruence.
Qed.

Lemma evaluate_relevance_spec_witness :
  evaluate_relevance 1 [ {| result_fname := 2 |}; {| result_fname := 3 |} ]
    [ {| fname := 1; labels := "dog,bark" |};
      {| fname := 2; labels := "cat" |};
      {| fname := 3; labels := "bark,street" |} ] None = Ret [0; 1]
  /\ evaluate_relevance 1 [ {| result_fname := 2 |}; {| result_fname := 3 |} ]
       [ {| fname := 1; labels := "dog,bark" |};
         {| fname := 2; labels := "cat" |};
         {| fname := 3; labels := "bark,street" |} ] (Some "cat"%string)
     = Ret [1; 0].
Proof.
  assert (Hrows : Forall (fun ref =>
                    row_of [ {| fname := 1; labels := "dog,bark" |};
                             {| fname := 2; labels := "cat" |};
                             {| fname := 3; labels := "bark,street" |} ]
                           (result_fname ref) <> None)
                    [ {| result_fname := 2 |}; {| result_fname := 3 |} ])
    by (repeat constructor; discriminate).
  split.
  - destruct (evaluate_relevance_spec 1 [ {| result_fname := 2 |}; {| result_fname := 3 |} ]
                [ {| fname := 1; labels := "dog,bark" |};
                  {| fname := 2; labels := "cat" |};
                  {| fname := 3; labels := "bark,street" |} ] None
                {| fname := 1; labels := "dog,bark" |} eq_refl Hrows)
      as (relevance & Heq & Hlen & _ & Hnth).
    destruct (Hnth 0%nat _ {| fname := 2; labels := "cat" |} eq_refl eq_refl)
      as (b0 & Hb0 & Hbin0 & Hiff0).
    destruct (Hnth 1%nat _ {| fname := 3; labels := "bark,street" |} eq_refl eq_refl)
      as (b1 & Hb1 & _ & Hiff1).
    destruct relevance as [|x [|y [|z relevance]]]; try discriminate Hlen.
    cbn [nth_error] in Hb0, Hb1. injection Hb0 as ->. injection Hb1 as ->.
    rewrite Heq. do 2 f_equal.
    + destruct Hbin0 as [H|H]; [exact H|]. exfalso.
      apply Hiff0 in H. destruct H as (l & H1 & H2).
      vm_compute in H1, H2. destruct H2 as [<-|[]].
      destruct H1 as [H1|[H1|[]]]; discriminate H1.
    + f_equal. apply Hiff1. exists "bark"%string. vm_compute. tauto.
  - destruct (evaluate_relevance_spec 1 [ {| result_fname := 2 |}; {| result_fname := 3 |} ]
                [ {| fname := 1; labels := "dog,bark" |};
                  {| fname := 2; labels := "cat" |};
                  {| fname := 3; labels := "bark,street" |} ] (Some "cat"%string)
                {| fname := 1; labels := "dog,bark" |} eq_refl Hrows)
      as (relevance & Heq & Hlen & _ & Hnth).
    destruct (Hnth 0%nat _ {| fname := 2; labels := "cat" |} eq_refl eq_refl)
      as (b0 & Hb0 & _ & Hiff0).
    destruct (Hnth 1%nat _ {| fname := 3; labels := "bark,street" |} eq_refl eq_refl)
      as (b1 & Hb1 & Hbin1 & Hiff1).
    destruct relevance as [|x [|y [|z relevance]]]; try discriminate Hlen.
    cbn [nth_error] in Hb0, Hb1. injection Hb0 as ->. injection Hb1 as ->.
    rewrite Heq. do 2 f_equal.
    + apply Hiff0. vm_compute. tauto.
    + f_equal. destruct Hbin1 as [H|H]; [exact H|]. exfalso.
      apply Hiff1 in H. vm_compute in H.
      destruct H as [H|[H|[]]]; discriminate H.
Defined.

Example evaluate_relevance_default :
  evaluate_relevance 1 [ {| result_fname := 2 |}; {| result_fname := 3 |} ]
    [ {| fname := 1; labels := "dog,bark" |};
      {| fname := 2; labels := "cat" |};
      {| fname := 3; labels := "bark,street" |} ] None = Ret [0; 1].
Proof. reflexivity. Qed.

Example evaluate_relevance_restricted :
  evaluate_relevance 1 [ {| result_fname := 2 |}; {| result_fname := 3 |} ]
    [ {| fname := 1; labels := "dog,bark" |};
      {| fname := 2; labels := "cat" |};
      {| fname := 3; labels := "bark,street" |} ] (Some "cat"%string) = Ret [1; 0].
Proof. reflexivity. Qed.

Example evaluate_relevance_unresolved :
  evaluate_relevance 1 [ {| result_fname := 7 |} ]
    [ {| fname := 1; labels := "dog,bark" |} ] None = Raise IndexError.
Proof. reflexivity. Qed.

(** ** Aggregates against their specification *)

(** C1 fails on the code: the filter [if x] of [calculate_MR1] drops a
    first-relevant rank of 0 together with the no-match sentinel, so the
    query answered at rank 0 leaves the mean: the code returns 2 where the
    mean over the matched queries is 1. *)
Theorem calculate_MR1_drops_rank_zero :
  R1 1 [ {| result_fname := 2 |}; {| result_fname := 3 |} ] df_example = Ret (Some 0)
  /\ R1 3 [ {| result_fname := 1 |}; {| result_fname := 2 |}; {| result_fname := 4 |} ]
        df_example = Ret (Some 2)
  /\ returns (calculate_MR1 results_example df_example) (2 # 1)
  /\ returns (MR1_spec results_example df_example) (1 # 1)
  /\ calculate_MR1 [ (1, [ {| result_fname := 2 |} ]) ] df_example
     = Raise ZeroDivisionError.
Proof.
  repeat split.
  - eexists. split; [vm_compute; reflexivity|]. reflexivity.
  - eexists. split; [vm_compute; reflexivity|]. reflexivity.
Qed.

(** C2 fails on the code: [calculate_micro_map_at_k] calls
    [average_precision(relevance)] without [n_relevant], so it never returns
    a value: every query raises (at the latest [TypeError] at that call), and
    the empty store divides by zero.  On the example the specified value
    is 2/3. *)
Theorem calculate_micro_map_at_k_never_returns :
  (forall results df k, exists e, calculate_micro_map_at_k results df k = Raise e)
  /\ calculate_micro_map_at_k results_example df_example 15 = Raise TypeError
  /\ returns (micro_map_at_k_spec results_example df_example 15) (2 # 3).
Proof.
  split; [|split].
  - intros [|[query_fname result] results] df k.
    + exists ZeroDivisionError. reflexivity.
    + unfold calculate_micro_map_at_k. simpl.
      destruct (evaluate_relevance query_fname (slice_to result k) df None) as [rel|e].
      * exists TypeError. reflexivity.
      * exists e. reflexivity.
  - reflexivity.
  - eexists. split; [vm_compute; reflexivity|]. reflexivity.
Qed.

(** ** The label-containment pattern *)

Ltac pattern_cases :=
  repeat (cbn [andb orb strip_prefix];
          rewrite ?(Ascii.eqb_sym ","%char);
          match goal with
          | |- context [Ascii.eqb ?c ","%char] => destruct (Ascii.eqb c ","%char)
          | |- context [match strip_prefix ?l ?s with _ => _ end] =>
              lazymatch l with
              | String _ _ => fail
              | _ => destruct (strip_prefix l s) as [[|? ?]|]
              end
          end);
  try reflexivity.

Lemma alternatives_at_start (label s : string) :
  existsb (fun alt => match_items alt 0 s) (label_pattern label)
  = begins_token label s
    || match s with
       | EmptyString => false
       | String c s' => Ascii.eqb c ","%char && begins_token label s'
       end.
Proof.
  unfold label_pattern, begins_token. cbn [existsb match_items Nat.eqb andb].
  destruct s as [|c s']; pattern_cases.
Qed.

Lemma alternatives_inside (label s : string) (pos : nat) :
  existsb (fun alt => match_items alt (S pos) s) (label_pattern label)
  = match s with
    | EmptyString => false
    | String c s' => Ascii.eqb c ","%char && begins_token label s'
    end.
Proof.
  unfold label_pattern, begins_token. cbn [existsb match_items Nat.eqb andb].
  destruct s as [|c s']; pattern_cases.
Qed.

Lemma search_inside (label s : string) (pos : nat) :
  search_from (label_pattern label) (S pos) s = token_after_comma label s.
Proof.
  revert pos. induction s as [|c s' IH]; intros pos;
    cbn [search_from token_after_comma]; rewrite alternatives_inside.
  - reflexivity.
  - rewrite IH. reflexivity.
Qed.

Lemma search_label_pattern (label s : string) :
  search (label_pattern label) s
  = begins_token label s || token_after_comma label s.
Proof.
  unfold search. destruct s as [|c s']; cbn [search_from];
    rewrite alternatives_at_start.
  - cbn [token_after_comma]. now rewrite !orb_false_r.
  - rewrite search_inside. cbn [token_after_comma]. now rewrite orb_assoc.
Qed.

Lemma begins_token_cons (a : ascii) (label : string) (c : ascii) (s : string) :
  begins_token (String a label) (String c s)
  = Ascii.eqb a c && begins_token label s.
Proof.
  unfold begins_token. cbn [strip_prefix]. destruct (Ascii.eqb a c); reflexivity.
Qed.

Lemma begins_token_empty (s : string) :
  begins_token EmptyString s
  = match s with
    | EmptyString => true
    | String c _ => Ascii.eqb c ","%char
    end.
Proof. destruct s; reflexivity. Qed.

(** The first token of [s] and the later ones, read off the string. *)
Lemma split_comma_tokens (s : string) :
  exists t ts,
    split_comma s = t :: ts
    /\ (forall label, comma_free label = true ->
          (label = t <-> begins_token label s = true))
    /\ (forall label, comma_free label = true ->
          (In label ts <-> token_after_comma label s = true)).
Proof.
  induction s as [|c s' (t & ts & Hsplit & Hhead & Htail)].
  - exists EmptyString, []. split; [reflexivity|]. split; intros label Hcf.
    + destruct label; cbn; split; congruence.
    + cbn. split; [contradiction | discriminate].
  - cbn [split_comma token_after_comma]. rewrite Hsplit.
    destruct (Ascii.eqb c ","%char) eqn:Ec.
    + apply Ascii.eqb_eq in Ec. subst c.
      exists EmptyString, (t :: ts). split; [reflexivity|]. split; intros label Hcf.
      * destruct label as [|a label].
        -- cbn. tauto.
        -- cbn [comma_free] in Hcf. apply andb_true_iff in Hcf.
           destruct Hcf as [Ha _]. apply negb_true_iff in Ha.
           rewrite begins_token_cons, Ha. cbn. split; discriminate.
      * cbn [andb In]. rewrite orb_true_iff, <- Hhead, <- Htail by assumption.
        split; intros [H|H]; auto.
    + exists (String c t), ts. split; [reflexivity|]. split; intros label Hcf.
      * destruct label as [|a label].
        -- rewrite begins_token_empty, Ec. split; discriminate.
        -- cbn [comma_free] in Hcf. apply andb_true_iff in Hcf.
           destruct Hcf as [_ Hcf].
           rewrite begins_token_cons, andb_true_iff, Ascii.eqb_eq, <- Hhead
             by assumption.
           split; [intros H; injection H; auto | intros [-> ->]; reflexivity].
      * cbn [andb orb]. now apply Htail.
Qed.

Lemma is_token_In (label s : string) :
  is_token label s = true <-> In label (split_comma s).
Proof.
  unfold is_token. rewrite existsb_exists. split.
  - intros (x & Hx & Heq). apply String.eqb_eq in Heq. now subst.
  - intros H. exists label. split; [assumption | apply String.eqb_refl].
Qed.

(** The pattern finds [label] exactly when it is one of the tokens. *)
Lemma search_is_token (label s : string) :
  comma_free label = true ->
  search (label_pattern label) s = is_token label s.
Proof.
  intros Hcf. apply eq_true_iff_eq.
  rewrite search_label_pattern, orb_true_iff, is_token_In.
  destruct (split_comma_tokens s) as (t & ts & -> & Hhead & Htail).
  rewrite <- Hhead, <- Htail by assumption. cbn [In].
  split; intros [H|H]; auto.
Qed.

Lemma comma_free_append (a b : string) :
  comma_free (a ++ b) = comma_free a && comma_free b.
Proof.
  induction a as [|c a IH]; cbn [String.append comma_free].
  - reflexivity.
  - rewrite IH. now rewrite andb_assoc.
Qed.

Lemma split_comma_single (s : string) :
  comma_free s = true -> split_comma s = [s].
Proof.
  induction s as [|c s IH]; cbn [comma_free split_comma]; intros H.
  - reflexivity.
  - apply andb_true_iff in H. destruct H as [Hc Hs].
    apply negb_true_iff in Hc. rewrite Hc, (IH Hs). reflexivity.
Qed.

Lemma append_length (a b : string) :
  String.length (a ++ b) = (String.length a + String.length b)%nat.
Proof.
  induction a as [|c a IH]; cbn [String.append String.length].
  - reflexivity.
  - now rewrite IH.
Qed.

Lemma proper_affix_differs (short long extra : string) :
  extra <> EmptyString ->
  long = (short ++ extra)%string \/ long = (extra ++ short)%string ->
  short <> long.
Proof.
  intros Hne Hlong Heq.
  assert (Hlen : String.length long
                 = (String.length short + String.length extra)%nat)
    by (destruct Hlong as [-> | ->]; rewrite append_length; lia).
  rewrite <- Heq in Hlen. destruct extra; [congruence|].
  cbn [String.length] in Hlen. lia.
Qed.

(** C6: [find_indices_containing_label] reports a row exactly when the
    label is one of the comma-delimited tokens of the row's labels string;
    hence a row tagged only with a label of which the queried label is a
    proper prefix or suffix is not reported, as with "car" against
    "cartoon". *)
Theorem find_indices_whole_token :
  (forall label df,
      comma_free label = true ->
      find_indices_containing_label label df
      = map (fun r => is_token label (labels r)) df)
  /\ (forall short long extra id,
        extra <> EmptyString ->
        long = (short ++ extra)%string \/ long = (extra ++ short)%string ->
        comma_free long = true ->
        find_indices_containing_label short [ {| fname := id; labels := long |} ]
        = [false])
  /\ find_indices_containing_label "car" [ {| fname := 1; labels := "cartoon" |} ]
     = [false]
  /\ find_indices_containing_label "car"
       [ {| fname := 1; labels := "cartoon" |};
         {| fname := 2; labels := "cartoon,car" |};
         {| fname := 3; labels := "car,cartoon" |};
         {| fname := 4; labels := "scar,car,carpet" |};
         {| fname := 5; labels := "scar,carpet" |};
         {| fname := 6; labels := "car" |} ]
     = [false; true; true; true; false; true].
Proof.
  assert (Hmain : forall label df,
             comma_free label = true ->
             find_indices_containing_label label df
             = map (fun r => is_token label (labels r)) df).
  { intros label df Hcf. unfold find_indices_containing_label.
    apply map_ext. intros r. now apply search_is_token. }
  split; [exact Hmain|]. split; [|split; reflexivity].
  intros short long extra id Hne Hlong Hcf.
  assert (Hshort : comma_free short = true).
  { destruct Hlong as [-> | ->]; rewrite comma_free_append in Hcf;
      apply andb_true_iff in Hcf; tauto. }
  rewrite Hmain by assumption. cbn [map labels]. f_equal.
  apply not_true_is_false. intros Htok. apply is_token_In in Htok.
  rewrite (split_comma_single long Hcf) in Htok. destruct Htok as [H|[]].
  now apply (proper_affix_differs short long extra Hne Hlong).
Qed.

Lemma find_indices_whole_token_witness :
  find_indices_containing_label "bus" [ {| fname := 7; labels := "minibus" |} ]
  = [false]
  /\ find_indices_containing_label "bus"
       [ {| fname := 7; labels := "minibus,bus" |}; {| fname := 8; labels := "busy" |} ]
     = [is_token "bus" "minibus,bus"; is_token "bus" "busy"].
Proof.
  split.
  - apply (proj1 (proj2 find_indices_whole_token) "bus" "minibus" "mini" 7)%string.
    + discriminate.
    + right. reflexivity.
    + reflexivity.
  - apply (proj1 find_indices_whole_token "bus"%string). reflexivity.
Defined.

(** ** Moving a relevant item earlier *)

Lemma inject_Z_pos (d : Z) : 0 < d -> (0 < inject_Z d)%Q.
Proof. intros H. change 0%Q with (inject_Z 0). now rewrite <- Zlt_Qlt. Qed.

Lemma Qdiv_antitone (a d e : Z) :
  0 <= a -> 0 < d -> d <= e ->
  (inject_Z a / inject_Z e <= inject_Z a / inject_Z d)%Q.
Proof.
  intros Ha Hd He.
  assert (Hdq : (0 < inject_Z d)%Q) by (apply inject_Z_pos; lia).
  assert (Heq : (0 < inject_Z e)%Q) by (apply inject_Z_pos; lia).
  apply Qle_shift_div_r; [assumption|].
  assert (Hr : (inject_Z a / inject_Z d * inject_Z e
                == inject_Z a * inject_Z e / inject_Z d)%Q).
  { field. intros Hz. rewrite Hz in Hdq. now apply (Qlt_irrefl 0). }
  rewrite Hr. apply Qle_shift_div_l; [assumption|].
  rewrite <- !inject_Z_mult, <- Zle_Qle. nia.
Qed.

Lemma Qdiv_plus (a b d : Z) :
  0 < d ->
  (inject_Z (a + b) / inject_Z d == inject_Z a / inject_Z d + inject_Z b / inject_Z d)%Q.
Proof.
  intros Hd. rewrite inject_Z_plus. field.
  intros Hz. pose proof (inject_Z_pos d Hd) as Hp. rewrite Hz in Hp.
  now apply (Qlt_irrefl 0).
Qed.

Lemma running_total_app (l1 l2 : list Z) (a pos : Z) :
  (running_total a pos (l1 ++ l2)
   == running_total a pos l1 + running_total (a + sum l1) (pos + len l1) l2)%Q.
Proof.
  revert a pos. induction l1 as [|r l1 IH]; intros a pos.
  - cbn [app running_total]. rewrite sum_nil. unfold len. simpl Z.of_nat.
    rewrite !Z.add_0_r. ring.
  - cbn [app running_total]. rewrite IH, sum_cons.
    replace (a + r + sum l1) with (a + (r + sum l1)) by lia.
    replace (pos + 1 + len l1) with (pos + len (r :: l1))
      by (unfold len; simpl List.length; lia).
    ring.
Qed.

(** One more relevant item seen before [l] raises every later precision. *)
Lemma running_total_shift (l : list Z) (a pos : Z) :
  0 <= pos ->
  (running_total (a + 1) pos l == running_total a pos l + rank_weight pos l)%Q.
Proof.
  revert a pos. induction l as [|r l IH]; intros a pos Hpos.
  - cbn. ring.
  - cbn [running_total rank_weight].
    replace (a + 1 + r) with (a + r + 1) by lia.
    rewrite IH by lia.
    replace (a + r + 1) with ((a + r) + 1) by lia.
    rewrite (Qdiv_plus (a + r) 1 (pos + 1)) by lia.
    change (inject_Z 1) with 1%Q. field.
    intros Hz. pose proof (inject_Z_pos (pos + 1) ltac:(lia)) as Hp.
    rewrite Hz in Hp. now apply (Qlt_irrefl 0).
Qed.

Lemma rank_weight_lower (l : list Z) (pos e : Z) :
  binary l -> 0 <= pos -> pos + len l <= e -> 0 < e ->
  (inject_Z (sum l) / inject_Z e <= rank_weight pos l)%Q.
Proof.
  intros Hb. revert pos. induction Hb as [|r l Hr Hl IH]; intros pos Hpos He Hepos.
  - cbn [rank_weight]. rewrite sum_nil. unfold Qdiv. change (inject_Z 0) with 0%Q.
    rewrite Qmult_0_l. apply Qle_refl.
  - cbn [rank_weight]. rewrite sum_cons, Qdiv_plus by assumption.
    assert (Hlen : len (r :: l) = 1 + len l)
      by (unfold len; simpl List.length; lia).
    rewrite Hlen in He.
    assert (Hlenl : 0 <= len l) by (unfold len; lia).
    apply Qplus_le_compat.
    + apply Qdiv_antitone; lia.
    + apply IH; lia.
Qed.

Lemma running_total_exchange (l2 l3 : list Z) (a pos : Z) :
  binary l2 -> 0 <= a -> 0 <= pos ->
  (running_total a pos (0 :: l2 ++ 1 :: l3)%Z
   <= running_total a pos (1 :: l2 ++ 0 :: l3)%Z)%Q.
Proof.
  intros Hb Ha Hpos.
  assert (Hn2 : 0 <= len l2) by (unfold len; lia).
  cbn [running_total]. rewrite !running_total_app. cbn [running_total].
  rewrite (running_total_shift l2 a (pos + 1)) by lia.
  replace (a + 0) with a by lia.
  replace (a + 1 + sum l2 + 0) with (a + sum l2 + 1) by lia.
  replace (a + sum l2 + 1) with ((a + 1) + sum l2) at 1 by lia.
  rewrite (Qdiv_plus (a + 1) (sum l2) (pos + 1 + len l2 + 1)) by lia.
  pose proof (Qdiv_antitone (a + 1) (pos + 1) (pos + 1 + len l2 + 1)
                ltac:(lia) ltac:(lia) ltac:(lia)) as H1.
  pose proof (rank_weight_lower l2 (pos + 1) (pos + 1 + len l2 + 1) Hb
                ltac:(lia) ltac:(lia) ltac:(lia)) as H2.
  change (inject_Z 0) with 0%Q. change (inject_Z 1) with 1%Q.
  revert H1 H2.
  generalize (inject_Z (a + 1) / inject_Z (pos + 1 + len l2 + 1))%Q.
  generalize (inject_Z (sum l2) / inject_Z (pos + 1 + len l2 + 1))%Q.
  generalize (inject_Z (a + sum l2 + 1) / inject_Z (pos + 1 + len l2 + 1))%Q.
  generalize (inject_Z (a + 1) / inject_Z (pos + 1))%Q.
  generalize (rank_weight (pos + 1) l2).
  generalize (running_total a (pos + 1) l2).
  generalize (running_total (a + sum l2 + 1) (pos + 1 + len l2 + 1) l3).
  generalize (inject_Z a / inject_Z (pos + 1))%Q.
  intros. lra.
Qed.

Lemma running_total_swap (l1 l2 l3 : list Z) :
  binary l1 -> binary l2 ->
  (running_total 0 0 (l1 ++ 0 :: l2 ++ 1 :: l3)%Z
   <= running_total 0 0 (l1 ++ 1 :: l2 ++ 0 :: l3)%Z)%Q.
Proof.
  intros Hb1 Hb2. rewrite !running_total_app.
  apply Qplus_le_compat; [apply Qle_refl|].
  apply running_total_exchange; [assumption| |unfold len; lia].
  pose proof (binary_sum_nonneg l1 Hb1). lia.
Qed.

(** *** The swap as a rearrangement of the list *)

Lemma update_app_length {A : Type} (l1 l2 : list A) (x y : A) :
  update (l1 ++ y :: l2) (List.length l1) x = l1 ++ x :: l2.
Proof.
  induction l1 as [|a l1 IH]; cbn [app List.length update].
  - reflexivity.
  - now rewrite IH.
Qed.

Lemma swap_split (l1 l2 l3 : list Z) (x y : Z) :
  swap (l1 ++ x :: l2 ++ y :: l3) (List.length l1)
       (List.length l1 + S (List.length l2))
  = l1 ++ y :: l2 ++ x :: l3.
Proof.
  unfold swap.
  assert (Hi : nth (List.length l1) (l1 ++ x :: l2 ++ y :: l3) 0 = x)
    by apply nth_middle.
  assert (Hj : nth (List.length l1 + S (List.length l2))
                   (l1 ++ x :: l2 ++ y :: l3) 0 = y).
  { rewrite app_nth2_plus. cbn [nth]. apply nth_middle. }
  rewrite Hi, Hj, update_app_length.
  replace (l1 ++ y :: l2 ++ y :: l3) with ((l1 ++ y :: l2) ++ y :: l3)
    by (rewrite <- app_assoc; reflexivity).
  replace (List.length l1 + S (List.length l2))%nat
    with (List.length (l1 ++ y :: l2))
    by (rewrite length_app; reflexivity).
  rewrite update_app_length, <- app_assoc. reflexivity.
Qed.

Lemma two_positions (l : list Z) (i j : nat) (x y : Z) :
  (i < j)%nat -> nth_error l i = Some x -> nth_error l j = Some y ->
  exists l1 l2 l3,
    l = l1 ++ x :: l2 ++ y :: l3
    /\ i = List.length l1
    /\ j = (List.length l1 + S (List.length l2))%nat.
Proof.
  intros Hij Hi Hj.
  destruct (nth_error_split l i Hi) as (l1 & rest & -> & Hl1).
  subst i.
  rewrite nth_error_app2 in Hj by lia.
  replace (j - List.length l1)%nat with (S (j - List.length l1 - 1)) in Hj by lia.
  cbn [nth_error] in Hj.
  destruct (nth_error_split rest _ Hj) as (l2 & l3 & -> & Hl2).
  exists l1, l2, l3. repeat split. lia.
Qed.

Lemma average_precision_running (relevance : list Z) (n_relevant : Z) :
  binary relevance -> sum relevance = n_relevant -> n_relevant <> 0 ->
  returns (average_precision relevance n_relevant)
          (running_total 0 0 relevance / inject_Z n_relevant).
Proof.
  intros Hb Hs Hn. unfold average_precision.
  apply Z.eqb_eq in Hs. rewrite Hs.
  replace (n_relevant =? 0) with false by (symmetry; now apply Z.eqb_neq).
  apply returns_div; [|assumption].
  apply precision_total_running. now apply is_binary_iff.
Qed.

(** C8: in a 0/1 list with a 0 at position i and a 1 at a later position j,
    exchanging the two entries does not decrease [average_precision] (taken
    with the consistent [n_relevant], which the exchange preserves). *)
Theorem average_precision_monotone (relevance : list Z) (i j : nat)
    (n_relevant : Z) :
  binary relevance ->
  (i < j)%nat ->
  nth_error relevance i = Some 0 ->
  nth_error relevance j = Some 1 ->
  sum relevance = n_relevant ->
  exists ap ap',
    average_precision relevance n_relevant = Ret ap
    /\ average_precision (swap relevance i j) n_relevant = Ret ap'
    /\ (ap <= ap')%Q.
Proof.
  intros Hb Hij Hi Hj Hsum.
  destruct (two_positions relevance i j 0 1 Hij Hi Hj)
    as (l1 & l2 & l3 & -> & -> & ->).
  rewrite swap_split.
  apply binary_app in Hb. destruct Hb as [Hb1 Hb].
  apply Forall_cons_iff in Hb. destruct Hb as [_ Hb].
  apply binary_app in Hb. destruct Hb as [Hb2 Hb].
  apply Forall_cons_iff in Hb. destruct Hb as [_ Hb3].
  assert (Hbin : binary (l1 ++ 0 :: l2 ++ 1 :: l3)).
  { apply binary_app. split; [assumption|]. constructor; [now left|].
    apply binary_app. split; [assumption|]. constructor; [now right|assumption]. }
  assert (Hbin' : binary (l1 ++ 1 :: l2 ++ 0 :: l3)).
  { apply binary_app. split; [assumption|]. constructor; [now right|].
    apply binary_app. split; [assumption|]. constructor; [now left|assumption]. }
  assert (Hsum' : sum (l1 ++ 1 :: l2 ++ 0 :: l3) = n_relevant).
  { rewrite <- Hsum. rewrite !sum_app, !sum_cons, !sum_app, !sum_cons. lia. }
  assert (Hpos : 0 < n_relevant).
  { rewrite <- Hsum. rewrite sum_app, sum_cons, sum_app, sum_cons.
    pose proof (binary_sum_nonneg l1 Hb1).
    pose proof (binary_sum_nonneg l2 Hb2).
    pose proof (binary_sum_nonneg l3 Hb3). lia. }
  destruct (average_precision_running _ n_relevant Hbin Hsum ltac:(lia))
    as (ap & Hap & Hq).
  destruct (average_precision_running _ n_relevant Hbin' Hsum' ltac:(lia))
    as (ap' & Hap' & Hq').
  exists ap, ap'. split; [assumption|]. split; [assumption|].
  rewrite Hq, Hq'. unfold Qdiv. apply Qmult_le_compat_r.
  - now apply running_total_swap.
  - apply Qlt_le_weak, Qinv_lt_0_compat, inject_Z_pos. assumption.
Qed.

Lemma average_precision_monotone_witness :
  exists ap ap',
    average_precision [1; 0; 0; 1; 1] 3 = Ret ap
    /\ average_precision (swap [1; 0; 0; 1; 1] 1 4) 3 = Ret ap'
    /\ (ap <= ap')%Q.
Proof.
  apply (average_precision_monotone [1; 0; 0; 1; 1] 1 4 3).
  - apply is_binary_iff. reflexivity.
  - lia.
  - reflexivity.
  - reflexivity.
  - reflexivity.
Defined.

Example swap_example : swap [1; 0; 0; 1; 1] 1 4 = [1; 1; 0; 1; 0].
Proof. reflexivity. Qed.

Example test_average_precision_at_n_passes : test_average_precision_at_n = true.
Proof. vm_compute. reflexivity. Qed.

(** Outside its documented range of [k] the slice wraps around: *)
Example precision_at_k_minus_one :
  precision_at_k [1; 1; 1] (-1) = Raise ZeroDivisionError.
Proof. reflexivity. Qed.

(** * Further properties of the module *)

(** ** Range of [precision_at_k] *)

Lemma binary_firstn (l : list Z) (n : nat) : binary l -> binary (firstn n l).
Proof.
  intros Hb. revert n. induction Hb as [|x l Hx _ IH]; intros [|n]; cbn [firstn].
  - constructor.
  - constructor.
  - constructor.
  - constructor; [assumption | apply IH].
Qed.

Lemma binary_sum_le_len (l : list Z) : binary l -> sum l <= len l.
Proof.
  induction 1 as [|x l Hx _ IH].
  - rewrite sum_nil. unfold len. simpl. lia.
  - rewrite sum_cons. unfold len in *. simpl List.length. lia.
Qed.

Lemma Qdiv_unit_interval (s d : Z) :
  0 <= s -> s <= d -> 0 < d ->
  (0 <= inject_Z s / inject_Z d)%Q /\ (inject_Z s / inject_Z d <= 1)%Q.
Proof.
  intros Hs Hsd Hd. pose proof (inject_Z_pos d Hd) as Hp. split.
  - apply Qle_shift_div_l; [assumption|]. rewrite Qmult_0_l.
    change 0%Q with (inject_Z 0). rewrite <- Zle_Qle. assumption.
  - apply Qle_shift_div_r; [assumption|]. rewrite Qmult_1_l.
    rewrite <- Zle_Qle. assumption.
Qed.

(** On a 0/1 list and a zero-based [k], [precision_at_k] returns a value
    between 0 and 1. *)
Theorem precision_at_k_bounds (relevance : list Z) (k : Z) :
  binary relevance -> 0 <= k ->
  exists p, precision_at_k relevance k = Ret p /\ (0 <= p)%Q /\ (p <= 1)%Q.
Proof.
  intros Hb Hk. eexists. split.
  - apply precision_at_k_value; [now apply is_binary_iff | assumption].
  - pose proof (binary_firstn relevance (Z.to_nat (k + 1)) Hb) as Hf.
    pose proof (binary_sum_nonneg _ Hf) as H0.
    pose proof (binary_sum_le_len _ Hf) as H1.
    assert (Hlen : len (firstn (Z.to_nat (k + 1)) relevance) <= k + 1).
    { unfold len. rewrite length_firstn. lia. }
    apply Qdiv_unit_interval; lia.
Qed.

Lemma precision_at_k_bounds_witness :
  exists p, precision_at_k [0; 1; 1; 0] 2 = Ret p /\ (0 <= p)%Q /\ (p <= 1)%Q.
Proof.
  apply (precision_at_k_bounds [0; 1; 1; 0] 2).
  - apply is_binary_iff. reflexivity.
  - lia.
Defined.

(** From the last index on, [precision_at_k] divides the number of relevant
    items of the whole list by [k+1]; at the last index it is the fraction
    of relevant items, sum(relevance)/len(relevance). *)
Theorem precision_at_k_past_end (relevance : list Z) (k : Z) :
  binary relevance -> 0 <= k -> len relevance <= k + 1 ->
  precision_at_k relevance k = Ret (inject_Z (sum relevance) / inject_Z (k + 1))%Q
  /\ (k = len relevance - 1 ->
      precision_at_k relevance k
      = Ret (inject_Z (sum relevance) / inject_Z (len relevance))%Q).
Proof.
  intros Hb Hk Hlen.
  assert (Hv : precision_at_k relevance k
               = Ret (inject_Z (sum relevance) / inject_Z (k + 1))%Q).
  { rewrite precision_at_k_value by (try apply is_binary_iff; assumption).
    rewrite firstn_all2 by (unfold len in Hlen; lia). reflexivity. }
  split; [assumption|]. intros Heq. rewrite Hv.
  replace (k + 1) with (len relevance) by lia. reflexivity.
Qed.

Lemma precision_at_k_past_end_witness :
  precision_at_k [1; 0; 1] 2 = Ret (Qdiv (inject_Z (sum [1; 0; 1])) (inject_Z (len [1; 0; 1]))).
Proof.
  apply (precision_at_k_past_end [1; 0; 1] 2).
  - apply is_binary_iff. reflexivity.
  - lia.
  - unfold len. simpl. lia.
  - reflexivity.
Defined.

(** Below its documented range, [precision_at_k] does not reject [k]: with
    [k = -1] the divisor [k+1] is 0 and the call raises
    [ZeroDivisionError]; with [k < -1] the slice counts from the end and
    the call returns a value that is not positive. *)
Theorem precision_at_k_negative_k (relevance : list Z) (k : Z) :
  binary relevance -> k < 0 ->
  (k = -1 -> precision_at_k relevance k = Raise ZeroDivisionError)
  /\ (k < -1 -> exists p, precision_at_k relevance k = Ret p /\ (p <= 0)%Q).
Proof.
  intros Hb Hk. apply is_binary_iff in Hb. unfold precision_at_k. rewrite Hb.
  split.
  - intros ->. reflexivity.
  - intros Hlt. rewrite true_div_nonzero by lia. eexists. split; [reflexivity|].
    unfold slice_to. replace (k + 1 <? 0) with true by (symmetry; apply Z.ltb_lt; lia).
    set (s := sum (firstn (Z.to_nat (len relevance + (k + 1))) relevance)).
    assert (Hs : 0 <= s).
    { apply binary_sum_nonneg, binary_firstn. now apply is_binary_iff. }
    assert (Hd : (0 < inject_Z (- (k + 1)))%Q) by (apply inject_Z_pos; lia).
    assert (Hq : (inject_Z s / inject_Z (k + 1)
                  == inject_Z (- s) / inject_Z (- (k + 1)))%Q).
    { rewrite !inject_Z_opp. field. intros Hz.
      rewrite inject_Z_opp, Hz in Hd. now apply (Qlt_irrefl 0). }
    rewrite Hq. apply Qle_shift_div_r; [assumption|].
    rewrite Qmult_0_l. change 0%Q with (inject_Z 0). rewrite <- Zle_Qle. lia.
Qed.

Lemma precision_at_k_negative_k_witness :
  precision_at_k [1; 1; 1] (-1) = Raise ZeroDivisionError
  /\ exists p, precision_at_k [1; 1; 1] (-2) = Ret p /\ (p <= 0)%Q.
Proof.
  assert (Hb : binary [1; 1; 1]) by (apply is_binary_iff; reflexivity).
  split.
  - apply (proj1 (precision_at_k_negative_k [1; 1; 1] (-1) Hb ltac:(lia))).
    reflexivity.
  - apply (proj2 (precision_at_k_negative_k [1; 1; 1] (-2) Hb ltac:(lia))). lia.
Defined.

(** ** Range and special values of [average_precision] *)

Lemma running_total_bounds (l : list Z) (a pos : Z) :
  binary l -> 0 <= a -> a <= pos ->
  (0 <= running_total a pos l)%Q /\ (running_total a pos l <= inject_Z (sum l))%Q.
Proof.
  intros Hb. revert a pos. induction Hb as [|r l Hr _ IH]; intros a pos Ha Hpos.
  - cbn [running_total]. rewrite sum_nil. split; apply Qle_refl.
  - cbn [running_total]. rewrite sum_cons, (inject_Z_plus r (sum l)).
    destruct (IH (a + r) (pos + 1) ltac:(lia) ltac:(lia)) as [Hlo Hhi].
    destruct (Qdiv_unit_interval (a + r) (pos + 1) ltac:(lia) ltac:(lia) ltac:(lia))
      as [Plo Phi].
    revert Hlo Hhi Plo Phi.
    generalize (running_total (a + r) (pos + 1) l).
    generalize (inject_Z (a + r) / inject_Z (pos + 1))%Q.
    generalize (inject_Z (sum l)).
    destruct Hr as [-> | ->].
    + change (inject_Z 0) with 0%Q. intros. split; lra.
    + change (inject_Z 1) with 1%Q. intros. split; lra.
Qed.

(** With a consistent [n_relevant], [average_precision] of a 0/1 list
    returns a value between 0 and 1. *)
Theorem average_precision_bounds (relevance : list Z) (n_relevant : Z) :
  binary relevance -> sum relevance = n_relevant ->
  exists ap,
    average_precision relevance n_relevant = Ret ap /\ (0 <= ap)%Q /\ (ap <= 1)%Q.
Proof.
  intros Hb Hs. destruct (Z.eq_dec n_relevant 0) as [Hz|Hnz].
  - exists 0%Q. unfold average_precision. apply Z.eqb_eq in Hs. rewrite Hs.
    subst n_relevant. split; [reflexivity|]. split; [apply Qle_refl | discriminate].
  - destruct (average_precision_running relevance n_relevant Hb Hs Hnz)
      as (ap & Hap & Hq).
    exists ap. split; [assumption|].
    pose proof (binary_sum_nonneg _ Hb) as Hnn.
    assert (Hp : (0 < inject_Z n_relevant)%Q) by (apply inject_Z_pos; lia).
    destruct (running_total_bounds relevance 0 0 Hb ltac:(lia) ltac:(lia))
      as [Hlo Hhi].
    rewrite Hs in Hhi. rewrite Hq. split.
    + apply Qle_shift_div_l; [assumption|]. now rewrite Qmult_0_l.
    + apply Qle_shift_div_r; [assumption|]. now rewrite Qmult_1_l.
Qed.

Lemma average_precision_bounds_witness :
  exists ap,
    average_precision [0; 1; 0; 1] 2 = Ret ap /\ (0 <= ap)%Q /\ (ap <= 1)%Q.
Proof.
  apply (average_precision_bounds [0; 1; 0; 1] 2).
  - apply is_binary_iff. reflexivity.
  - reflexivity.
Defined.

Lemma binary_repeat (r : Z) (n : nat) : r = 0 \/ r = 1 -> binary (repeat r n).
Proof. intros Hr. induction n; cbn [repeat]; constructor; assumption. Qed.

Lemma sum_repeat (r : Z) (n : nat) : sum (repeat r n) = r * Z.of_nat n.
Proof.
  induction n as [|n IH]; cbn [repeat].
  - rewrite sum_nil. lia.
  - rewrite sum_cons, IH. lia.
Qed.

Lemma running_total_zeros (n : nat) (a pos : Z) :
  (running_total a pos (repeat 0%Z n) == 0)%Q.
Proof.
  revert a pos. induction n as [|n IH]; intros a pos; cbn [repeat running_total].
  - reflexivity.
  - rewrite IH. change (inject_Z 0) with 0%Q. ring.
Qed.

Lemma running_total_ones (n : nat) (a : Z) :
  0 <= a -> (running_total a a (repeat 1%Z n) == inject_Z (Z.of_nat n))%Q.
Proof.
  revert a. induction n as [|n IH]; intros a Ha; cbn [repeat running_total].
  - reflexivity.
  - rewrite IH by lia.
    rewrite Nat2Z.inj_succ, <- Z.add_1_r, (inject_Z_plus (Z.of_nat n) 1).
    change (inject_Z 1) with 1%Q. field.
    intros Hz. pose proof (inject_Z_pos (a + 1) ltac:(lia)) as Hp.
    rewrite Hz in Hp. now apply (Qlt_irrefl 0).
Qed.

(** A ranking that lists all its relevant items first has average
    precision 1. *)
Theorem average_precision_perfect_ranking (m z : nat) :
  (0 < m)%nat ->
  returns (average_precision (repeat 1 m ++ repeat 0 z) (Z.of_nat m)) 1.
Proof.
  intros Hm.
  assert (Hb : binary (repeat 1 m ++ repeat 0 z)).
  { apply binary_app. split; apply binary_repeat; auto. }
  assert (Hs : sum (repeat 1 m ++ repeat 0 z) = Z.of_nat m).
  { rewrite sum_app, !sum_repeat. lia. }
  destruct (average_precision_running _ (Z.of_nat m) Hb Hs ltac:(lia))
    as (ap & Hap & Hq).
  exists ap. split; [assumption|]. rewrite Hq.
  rewrite running_total_app, sum_repeat.
  rewrite (running_total_ones m 0) by lia.
  rewrite running_total_zeros. field.
  intros Hz. pose proof (inject_Z_pos (Z.of_nat m) ltac:(lia)) as Hp.
  rewrite Hz in Hp. now apply (Qlt_irrefl 0).
Qed.

Lemma average_precision_perfect_ranking_witness :
  returns (average_precision [1; 1; 0; 0; 0] 2) 1.
Proof.
  apply (average_precision_perfect_ranking 2 3). lia.
Defined.

(** Irrelevant results appended after the ranking leave
    [average_precision] unchanged. *)
Theorem average_precision_trailing_irrelevant (relevance : list Z)
    (n_relevant : Z) (z : nat) :
  binary relevance -> sum relevance = n_relevant ->
  exists ap ap',
    average_precision relevance n_relevant = Ret ap
    /\ average_precision (relevance ++ repeat 0 z) n_relevant = Ret ap'
    /\ (ap == ap')%Q.
Proof.
  intros Hb Hs.
  assert (Hb' : binary (relevance ++ repeat 0 z)).
  { apply binary_app. split; [assumption | apply binary_repeat; auto]. }
  assert (Hs' : sum (relevance ++ repeat 0 z) = n_relevant).
  { rewrite sum_app, sum_repeat. lia. }
  destruct (Z.eq_dec n_relevant 0) as [Hz|Hnz].
  - exists 0%Q, 0%Q. unfold average_precision.
    apply Z.eqb_eq in Hs, Hs'. rewrite Hs, Hs'. subst n_relevant.
    repeat split; reflexivity.
  - destruct (average_precision_running _ n_relevant Hb Hs Hnz) as (ap & Hap & Hq).
    destruct (average_precision_running _ n_relevant Hb' Hs' Hnz) as (ap' & Hap' & Hq').
    exists ap, ap'. split; [assumption|]. split; [assumption|].
    rewrite Hq, Hq', running_total_app, running_total_zeros.
    unfold Qdiv. ring.
Qed.

Lemma average_precision_trailing_irrelevant_witness :
  exists ap ap',
    average_precision [0; 1; 1] 2 = Ret ap
    /\ average_precision [0; 1; 1; 0; 0; 0; 0] 2 = Ret ap'
    /\ (ap == ap')%Q.
Proof.
  apply (average_precision_trailing_irrelevant [0; 1; 1] 2 4).
  - apply is_binary_iff. reflexivity.
  - reflexivity.
Defined.

(** ** [average_precision_at_n] against [average_precision] *)

(** Given the number of relevant items of the list itself,
    [average_precision_at_n] and [average_precision] agree. *)
Theorem average_precision_at_n_consistent (relevance : list Z) (n : Z) :
  binary relevance -> 0 < n -> len relevance = n ->
  average_precision_at_n relevance n (Some (sum relevance))
  = average_precision relevance (sum relevance).
Proof.
  intros Hb Hn Hlen. unfold average_precision_at_n, average_precision.
  replace (0 <? n) with true by (symmetry; apply Z.ltb_lt; lia).
  replace (len relevance =? n) with true by (symmetry; now apply Z.eqb_eq).
  rewrite Z.eqb_refl. destruct (sum relevance =? 0); [reflexivity|].
  pose proof (binary_sum_le_len relevance Hb).
  pose proof (binary_sum_nonneg relevance Hb).
  pose proof float_overflow_bound_pos.
  replace (Z.min n (sum relevance)) with (sum relevance) by lia.
  rewrite in_float_range by lia. reflexivity.
Qed.

Lemma average_precision_at_n_consistent_witness :
  average_precision_at_n [0; 1; 0; 1; 0; 0] 6 (Some (sum [0; 1; 0; 1; 0; 0]))
  = average_precision [0; 1; 0; 1; 0; 0] (sum [0; 1; 0; 1; 0; 0]).
Proof.
  apply (average_precision_at_n_consistent [0; 1; 0; 1; 0; 0] 6).
  - apply is_binary_iff. reflexivity.
  - lia.
  - reflexivity.
Defined.

(** Without [n_relevant], or with an [n_relevant] that is at least the
    number of relevant items in the list, [average_precision_at_n] returns
    a value between 0 and 1. *)
Theorem average_precision_at_n_bounds (relevance : list Z) (n : Z)
    (n_relevant : option Z) :
  binary relevance -> 0 < n -> len relevance = n ->
  match n_relevant with
  | Some m => sum relevance <= m
  | None => True
  end ->
  exists ap,
    average_precision_at_n relevance n n_relevant = Ret ap
    /\ (0 <= ap)%Q /\ (ap <= 1)%Q.
Proof.
  intros Hb Hn Hlen Hm. unfold average_precision_at_n.
  replace (0 <? n) with true by (symmetry; apply Z.ltb_lt; lia).
  replace (len relevance =? n) with true by (symmetry; now apply Z.eqb_eq).
  destruct (sum relevance =? 0) eqn:Es.
  - exists 0%Q. split; [reflexivity|]. split; [apply Qle_refl | discriminate].
  - apply Z.eqb_neq in Es.
    pose proof (binary_sum_nonneg _ Hb) as Hnn.
    pose proof (binary_sum_le_len _ Hb) as Hle.
    cbv zeta. fold (normalization_of n n_relevant).
    assert (Hnorm : sum relevance <= normalization_of n n_relevant).
    { destruct n_relevant as [m|]; cbn [normalization_of]; lia. }
    pose proof float_overflow_bound_pos as Hbound.
    rewrite in_float_range by lia.
    destruct (returns_div (precision_total relevance) (running_total 0 0 relevance)
                (normalization_of n n_relevant))
      as (ap & Hap & Hq).
    { apply precision_total_running. now apply is_binary_iff. }
    { lia. }
    exists ap. split; [exact Hap|].
    assert (Hp : (0 < inject_Z (normalization_of n n_relevant))%Q)
      by (apply inject_Z_pos; lia).
    destruct (running_total_bounds relevance 0 0 Hb ltac:(lia) ltac:(lia))
      as [Hlo Hhi].
    rewrite Hq. split.
    + apply Qle_shift_div_l; [assumption|]. now rewrite Qmult_0_l.
    + apply Qle_shift_div_r; [assumption|]. rewrite Qmult_1_l.
      apply (Qle_trans _ _ _ Hhi). now rewrite <- Zle_Qle.
Qed.

Lemma average_precision_at_n_bounds_witness :
  exists ap,
    average_precision_at_n [1; 1; 1; 0; 0] 5 (Some 8) = Ret ap
    /\ (0 <= ap)%Q /\ (ap <= 1)%Q.
Proof.
  apply (average_precision_at_n_bounds [1; 1; 1; 0; 0] 5 (Some 8)).
  - apply is_binary_iff. reflexivity.
  - lia.
  - reflexivity.
  - vm_compute. discriminate.
Defined.

(** ** Values outside {0,1} *)

(** The 0/1 check sits in [precision_at_k], which the two averages reach
    only when the values do not sum to 0: a list with values outside {0,1}
    is answered with 0 when they sum to 0 and with [AssertionError]
    otherwise. *)
Theorem values_outside_binary (relevance : list Z) :
  ~ binary relevance ->
  (forall n n_relevant,
      0 < n -> len relevance = n ->
      average_precision_at_n relevance n n_relevant
      = if sum relevance =? 0 then Ret 0%Q else Raise AssertionError)
  /\ (forall n_relevant,
        sum relevance = n_relevant ->
        average_precision relevance n_relevant
        = if n_relevant =? 0 then Ret 0%Q else Raise AssertionError).
Proof.
  intros Hnb.
  assert (Hb : is_binary relevance = false).
  { destruct (is_binary relevance) eqn:E; [|reflexivity].
    apply is_binary_iff in E. contradiction. }
  split.
  - intros n n_relevant Hn Hlen. unfold average_precision_at_n.
    replace (0 <? n) with true by (symmetry; apply Z.ltb_lt; lia).
    replace (len relevance =? n) with true by (symmetry; now apply Z.eqb_eq).
    destruct (sum relevance =? 0); [reflexivity|].
    rewrite precision_total_not_binary by assumption. reflexivity.
  - intros n_relevant Hs. unfold average_precision.
    apply Z.eqb_eq in Hs. rewrite Hs.
    destruct (n_relevant =? 0); [reflexivity|].
    rewrite precision_total_not_binary by assumption. reflexivity.
Qed.

Lemma values_outside_binary_witness :
  average_precision_at_n [1; -1] 2 None = Ret 0%Q
  /\ average_precision [0; 2] 2 = Raise AssertionError.
Proof.
  split.
  - apply (proj1 (values_outside_binary [1; -1]
                    ltac:(intros H; apply is_binary_iff in H; discriminate H))
             2 None); [lia | reflexivity].
  - apply (proj2 (values_outside_binary [0; 2]
                    ltac:(intros H; apply is_binary_iff in H; discriminate H)) 2).
    reflexivity.
Defined.

(** ** Lookup in the label store *)

Lemma split_comma_nonempty (s : string) : split_comma s <> [].
Proof.
  destruct (split_comma_tokens s) as (t & ts & -> & _). discriminate.
Qed.

Lemma py_set_nonempty (l : list string) : l <> [] -> py_set l <> [].
Proof.
  destruct l as [|x l]; [congruence|]. intros _ He.
  assert (Hx : set_In x (py_set (x :: l))) by (apply py_set_In; now left).
  rewrite He in Hx. contradiction.
Qed.

Lemma get_labels_missing (query : Z) (df : DataFrame) :
  Forall (fun r => fname r <> query) df -> get_labels query df = Raise IndexError.
Proof.
  intros H. unfold get_labels.
  replace (filter (fun r => fname r =? query) df) with (@nil row); [reflexivity|].
  symmetry. induction H as [|r df Hr _ IH]; cbn [filter]; [reflexivity|].
  apply Z.eqb_neq in Hr. rewrite Hr. exact IH.
Qed.

Lemma get_labels_first (query : Z) (pre post : list row) (r : row) :
  Forall (fun r' => fname r' <> query) pre -> fname r = query ->
  get_labels query (pre ++ r :: post) = Ret (py_set (split_comma (labels r))).
Proof.
  intros Hpre Hr. unfold get_labels. rewrite filter_app.
  replace (filter (fun r' => fname r' =? query) pre) with (@nil row).
  - cbn [app filter]. apply Z.eqb_eq in Hr. rewrite Hr. reflexivity.
  - symmetry. induction Hpre as [|r' pre Hr' _ IH]; cbn [filter]; [reflexivity|].
    apply Z.eqb_neq in Hr'. rewrite Hr'. exact IH.
Qed.

Lemma get_labels_cases (query : Z) (df : DataFrame) :
  Forall (fun r => fname r <> query) df
  \/ exists pre r post,
       df = pre ++ r :: post
       /\ Forall (fun r' => fname r' <> query) pre /\ fname r = query.
Proof.
  induction df as [|r df [IH | (pre & r' & post & -> & Hpre & Hr')]].
  - left. constructor.
  - destruct (Z.eq_dec (fname r) query) as [He|Hne].
    + right. exists [], r, df. repeat split; [constructor | assumption].
    + left. constructor; assumption.
  - destruct (Z.eq_dec (fname r) query) as [He|Hne].
    + right. exists [], r, (pre ++ r' :: post). repeat split; [constructor | assumption].
    + right. exists (r :: pre), r', post. repeat split; [|assumption].
      constructor; assumption.
Qed.

(** [get_labels] raises [IndexError] exactly when no row carries the
    identifier; otherwise it answers from the first such row, with a set
    that holds exactly the comma-separated tokens of that row's labels and
    is never empty. *)
Theorem get_labels_lookup (query : Z) (df : DataFrame) :
  (Forall (fun r => fname r <> query) df <-> get_labels query df = Raise IndexError)
  /\ (forall pre r post,
        df = pre ++ r :: post ->
        Forall (fun r' => fname r' <> query) pre -> fname r = query ->
        exists s,
          get_labels query df = Ret s
          /\ (forall x, set_In x s <-> In x (split_comma (labels r)))
          /\ s <> []).
Proof.
  split.
  - split; [apply get_labels_missing|].
    intros Hraise. destruct (get_labels_cases query df)
      as [H | (pre & r & post & -> & Hpre & Hr)]; [assumption|].
    rewrite (get_labels_first query pre post r Hpre Hr) in Hraise. discriminate.
  - intros pre r post -> Hpre Hr. eexists. split; [|split].
    + now apply get_labels_first.
    + intros x. apply py_set_In.
    + apply py_set_nonempty, split_comma_nonempty.
Qed.

Lemma get_labels_lookup_witness :
  get_labels 9 [ {| fname := 1; labels := "dog" |} ] = Raise IndexError
  /\ exists s,
       get_labels 2 [ {| fname := 1; labels := "dog" |};
                      {| fname := 2; labels := "cat,meow" |};
                      {| fname := 2; labels := "bird" |} ] = Ret s
       /\ (forall x, set_In x s <-> In x (split_comma "cat,meow"))
       /\ s <> [].
Proof.
  split.
  - apply (proj1 (get_labels_lookup 9 [ {| fname := 1; labels := "dog" |} ])).
    repeat constructor. discriminate.
  - apply (proj2 (get_labels_lookup 2 _)
             [ {| fname := 1; labels := "dog" |} ]
             {| fname := 2; labels := "cat,meow" |}
             [ {| fname := 2; labels := "bird" |} ]).
    + reflexivity.
    + repeat constructor. discriminate.
    + reflexivity.
Defined.

Lemma get_labels_result (query : Z) (df : DataFrame) :
  get_labels query df = Raise IndexError
  \/ exists s, get_labels query df = Ret s /\ s <> [].
Proof.
  destruct (get_labels_cases query df) as [H | (pre & r & post & -> & Hpre & Hr)].
  - left. now apply get_labels_missing.
  - right. eexists. split; [now apply get_labels_first|].
    apply py_set_nonempty, split_comma_nonempty.
Qed.

Lemma relevance_of_self (s : set string) : s <> [] -> relevance_of s s None = 1.
Proof.
  intros Hs. apply relevance_of_spec. destruct s as [|x s]; [congruence|].
  exists x. split; now left.
Qed.

Lemma relevance_of_sym (a b : set string) :
  relevance_of a b None = relevance_of b a None.
Proof.
  destruct (relevance_of_spec a b None) as [Hab Iab].
  destruct (relevance_of_spec b a None) as [Hba Iba].
  assert (Hsym : relevant a b None <-> relevant b a None).
  { cbn [relevant]. split; intros (x & H1 & H2); exists x; split; assumption. }
  destruct Hab as [Hab|Hab], Hba as [Hba|Hba]; try congruence.
  - exfalso. assert (H : relevance_of a b None = 1) by (apply Iab, Hsym, Iba, Hba). lia.
  - exfalso. assert (H : relevance_of b a None = 1) by (apply Iba, Hsym, Iab, Hab). lia.
Qed.

(** ** Relevance of a query to itself and to its results *)

(** A query that resolves is relevant to itself: it shares every label with
    itself, and a label set is never empty.  Listed first among its own
    results it gets first-relevant rank 0, whatever follows. *)
Theorem query_matches_itself (query_fname : Z) (df : DataFrame)
    (rest : list result_entry) (s : set string) :
  get_labels query_fname df = Ret s ->
  evaluate_relevance query_fname [ {| result_fname := query_fname |} ] df None
  = Ret [1]
  /\ R1 query_fname ({| result_fname := query_fname |} :: rest) df = Ret (Some 0).
Proof.
  intros Hs.
  assert (Hne : s <> []).
  { destruct (get_labels_result query_fname df) as [H | (s' & H & Hne)];
      congruence. }
  unfold evaluate_relevance, R1. rewrite Hs.
  cbn [bind relevance_loop R1_loop result_fname]. rewrite Hs. cbn [bind].
  rewrite (relevance_of_self s Hne). split; [reflexivity|].
  pose proof (relevance_of_self s Hne) as H1. cbn [relevance_of] in H1.
  destruct (0 <? len (intersection s s)); [reflexivity | discriminate].
Qed.

Lemma query_matches_itself_witness :
  evaluate_relevance 4 [ {| result_fname := 4 |} ] df_example None = Ret [1]
  /\ R1 4 [ {| result_fname := 4 |}; {| result_fname := 99 |} ] df_example
     = Ret (Some 0).
Proof.
  apply (query_matches_itself 4 df_example [ {| result_fname := 99 |} ]
           (py_set (split_comma "cat,meow"))).
  reflexivity.
Defined.

(** Default relevance is symmetric: [b] is a relevant result for query [a]
    exactly when [a] is a relevant result for query [b], failures included. *)
Theorem evaluate_relevance_symmetric (a b : Z) (df : DataFrame) :
  evaluate_relevance a [ {| result_fname := b |} ] df None
  = evaluate_relevance b [ {| result_fname := a |} ] df None.
Proof.
  unfold evaluate_relevance. cbn [relevance_loop result_fname].
  destruct (get_labels_result a df) as [Ha | (sa & Ha & _)];
    destruct (get_labels_result b df) as [Hb | (sb & Hb & _)];
    rewrite Ha, Hb; cbn [bind]; try reflexivity.
  now rewrite relevance_of_sym.
Qed.

(** [evaluate_relevance] returns exactly when the query and every result
    resolve in the label store; in every other case it raises
    [IndexError]. *)
Theorem evaluate_relevance_failure (query_fname : Z) (result : list result_entry)
    (df : DataFrame) (query_label : option string) :
  ((exists relevance,
       evaluate_relevance query_fname result df query_label = Ret relevance)
   <-> (exists s, get_labels query_fname df = Ret s) /\ resolves df result)
  /\ ((forall relevance,
          evaluate_relevance query_fname result df query_label <> Ret relevance)
      -> evaluate_relevance query_fname result df query_label = Raise IndexError).
Proof.
  assert (Hloop : forall s,
            (exists relevance, relevance_loop s result df query_label = Ret relevance)
            \/ (relevance_loop s result df query_label = Raise IndexError
                /\ ~ resolves df result)).
  { intros s. induction result as [|ref result IH].
    - left. exists []. reflexivity.
    - cbn [relevance_loop].
      destruct (get_labels_result (result_fname ref) df) as [Hr | (sr & Hr & _)];
        rewrite Hr; cbn [bind].
      + right. split; [reflexivity|]. intros Hres.
        apply Forall_cons_iff in Hres. destruct Hres as [(s' & Hs') _]. congruence.
      + destruct IH as [(rel & ->) | (-> & Hn)]; cbn [bind].
        * left. eexists. reflexivity.
        * right. split; [reflexivity|]. intros Hres.
          apply Forall_cons_iff in Hres. tauto. }
  unfold evaluate_relevance.
  destruct (get_labels_result query_fname df) as [Hq | (s & Hq & _)];
    rewrite Hq; cbn [bind].
  - split.
    + split; [intros (rel & H); discriminate H | intros [(s & H) _]; discriminate H].
    + reflexivity.
  - destruct (Hloop s) as [(rel & Hrel) | (Hraise & Hn)].
    + split.
      * split; [|intros _; now exists rel].
        intros _. split; [now exists s|].
        clear Hloop. revert rel Hrel. induction result as [|ref result IH];
          intros rel Hrel; [constructor|].
        cbn [relevance_loop] in Hrel.
        destruct (get_labels (result_fname ref) df) as [sr|e] eqn:Er;
          [|discriminate Hrel].
        cbn [bind] in Hrel.
        destruct (relevance_loop s result df query_label) as [rel'|e] eqn:El;
          [|discriminate Hrel].
        constructor; [now exists sr | now apply (IH rel')].
      * intros Hne. exfalso. now apply (Hne rel).
    + rewrite Hraise. split; [|reflexivity].
      split; [intros (rel & H); discriminate H | intros [_ H]; contradiction].
Qed.

Lemma evaluate_relevance_failure_witness :
  evaluate_relevance 1 [ {| result_fname := 2 |}; {| result_fname := 77 |} ]
    df_example (Some "dog"%string)
  = Raise IndexError.
Proof.
  apply (proj2 (evaluate_relevance_failure 1
                  [ {| result_fname := 2 |}; {| result_fname := 77 |} ]
                  df_example (Some "dog"%string))).
  intros relevance H. discriminate H.
Defined.

Lemma relevance_loop_firstn (s : set string) (df : DataFrame)
    (query_label : option string) (result : list result_entry)
    (relevance : list Z) (n : nat) :
  relevance_loop s result df query_label = Ret relevance ->
  relevance_loop s (firstn n result) df query_label = Ret (firstn n relevance)
  /\ List.length relevance = List.length result.
Proof.
  revert relevance n. induction result as [|ref result IH]; intros relevance n H.
  - cbn [relevance_loop] in H. injection H as <-.
    rewrite !firstn_nil. split; reflexivity.
  - cbn [relevance_loop] in H.
    destruct (get_labels (result_fname ref) df) as [sr|e] eqn:Er; [|discriminate H].
    cbn [bind] in H.
    destruct (relevance_loop s result df query_label) as [rel'|e] eqn:El;
      [|discriminate H].
    cbn [bind] in H. injection H as <-.
    destruct (IH rel' (Nat.pred n) eq_refl) as [Hf Hl].
    split; [|cbn [List.length]; now rewrite Hl].
    destruct n as [|n]; [reflexivity|].
    cbn [firstn relevance_loop]. rewrite Er. cbn [bind].
    cbn [Nat.pred] in Hf. rewrite Hf. reflexivity.
Qed.

(** Truncating the result list before evaluating relevance, as the
    aggregates do with [result[:k]], gives the truncation of the relevance
    of the whole list (for every [k], negative ones included). *)
Theorem evaluate_relevance_truncation (query_fname : Z) (result : list result_entry)
    (df : DataFrame) (query_label : option string) (relevance : list Z) (k : Z) :
  evaluate_relevance query_fname result df query_label = Ret relevance ->
  evaluate_relevance query_fname (slice_to result k) df query_label
  = Ret (slice_to relevance k).
Proof.
  unfold evaluate_relevance.
  destruct (get_labels query_fname df) as [s|e]; [|discriminate].
  cbn [bind]. intros H. unfold slice_to, len.
  destruct (relevance_loop_firstn s df query_label result relevance 0 H) as [_ Hl].
  rewrite Hl.
  destruct (k <? 0); now apply relevance_loop_firstn.
Qed.

Lemma evaluate_relevance_truncation_witness :
  evaluate_relevance 3 (slice_to [ {| result_fname := 1 |}; {| result_fname := 2 |};
                                   {| result_fname := 4 |} ] 2) df_example None
  = Ret (slice_to [0; 0; 1] 2).
Proof.
  apply (evaluate_relevance_truncation 3
           [ {| result_fname := 1 |}; {| result_fname := 2 |}; {| result_fname := 4 |} ]
           df_example None [0; 0; 1] 2).
  reflexivity.
Defined.

(** ** First relevant rank *)

Lemma intersection_test (a b : set string) :
  (0 <? len (intersection a b)) = (relevance_of a b None =? 1).
Proof.
  cbn [relevance_of]. destruct (0 <? len (intersection a b)); reflexivity.
Qed.

Lemma R1_loop_found (df : DataFrame) (sq : set string)
    (pre post : list result_entry) (ref : result_entry) (sr : set string) (i : Z) :
  Forall (no_match df sq) pre ->
  get_labels (result_fname ref) df = Ret sr -> relevant sq sr None ->
  R1_loop sq i (pre ++ ref :: post) df = Ret (Some (i + len pre)).
Proof.
  intros Hpre Hr Hrel. revert i.
  induction Hpre as [|p pre (sp & Hp & Hn) _ IH]; intros i; cbn [app R1_loop].
  - rewrite Hr. cbn [bind]. rewrite intersection_test.
    apply relevance_of_spec in Hrel. rewrite Hrel. cbn.
    unfold len. cbn. now rewrite Z.add_0_r.
  - rewrite Hp. cbn [bind]. rewrite intersection_test.
    destruct (relevance_of_spec sq sp None) as [[H0|H1] Hiff].
    + rewrite H0. cbn. rewrite IH. do 2 f_equal.
      unfold len. cbn [List.length]. lia.
    + exfalso. now apply Hn, Hiff.
Qed.

Lemma R1_loop_none (df : DataFrame) (sq : set string) (result : list result_entry)
    (i : Z) :
  Forall (no_match df sq) result -> R1_loop sq i result df = Ret None.
Proof.
  intros H. revert i. induction H as [|p result (sp & Hp & Hn) _ IH]; intros i;
    cbn [R1_loop]; [reflexivity|].
  rewrite Hp. cbn [bind]. rewrite intersection_test.
  destruct (relevance_of_spec sq sp None) as [[H0|H1] Hiff].
  - rewrite H0. cbn. apply IH.
  - exfalso. now apply Hn, Hiff.
Qed.

Lemma R1_loop_inv (df : DataFrame) (sq : set string) (result : list result_entry)
    (i : Z) (x : option Z) :
  R1_loop sq i result df = Ret x ->
  match x with
  | Some j =>
      exists pre ref post sr,
        result = pre ++ ref :: post /\ j = i + len pre
        /\ Forall (no_match df sq) pre
        /\ get_labels (result_fname ref) df = Ret sr /\ relevant sq sr None
  | None => Forall (no_match df sq) result
  end.
Proof.
  revert i. induction result as [|p result IH]; intros i H; cbn [R1_loop] in H.
  - injection H as <-. constructor.
  - destruct (get_labels (result_fname p) df) as [sp|e] eqn:Ep; [|discriminate H].
    cbn [bind] in H. rewrite intersection_test in H.
    destruct (relevance_of_spec sq sp None) as [[H0|H1] Hiff].
    + rewrite H0 in H. cbn in H.
      assert (Hp : no_match df sq p).
      { exists sp. split; [assumption|]. intros Hr. apply Hiff in Hr. lia. }
      specialize (IH (i + 1) H). destruct x as [j|].
      * destruct IH as (pre & ref & post & sr & -> & -> & Hpre & Hr & Hrel).
        exists (p :: pre), ref, post, sr. repeat split; try assumption.
        -- unfold len. cbn [List.length]. lia.
        -- constructor; assumption.
      * constructor; assumption.
    + rewrite H1 in H. cbn in H. injection H as <-.
      exists [], p, result, sp. repeat split.
      * unfold len. cbn. lia.
      * constructor.
      * assumption.
      * now apply Hiff.
Qed.

(** [R1] returns rank [i] exactly when result [i] is the first one that
    shares a label with the query, all earlier results resolving without a
    shared label; it returns [None] exactly when every result resolves and
    none shares a label.  The rank lies within the list. *)
Theorem R1_first_match (query_fname : Z) (result : list result_entry)
    (df : DataFrame) (sq : set string) :
  get_labels query_fname df = Ret sq ->
  (forall i,
      R1 query_fname result df = Ret (Some i)
      <-> exists pre ref post sr,
            result = pre ++ ref :: post /\ i = len pre
            /\ Forall (no_match df sq) pre
            /\ get_labels (result_fname ref) df = Ret sr /\ relevant sq sr None)
  /\ (R1 query_fname result df = Ret None <-> Forall (no_match df sq) result)
  /\ (forall i, R1 query_fname result df = Ret (Some i) -> 0 <= i < len result).
Proof.
  intros Hq. unfold R1. rewrite Hq. cbn [bind].
  assert (Hsome : forall i,
            R1_loop sq 0 result df = Ret (Some i)
            <-> exists pre ref post sr,
                  result = pre ++ ref :: post /\ i = len pre
                  /\ Forall (no_match df sq) pre
                  /\ get_labels (result_fname ref) df = Ret sr
                  /\ relevant sq sr None).
  { intros i. split.
    - intros H. apply R1_loop_inv in H.
      destruct H as (pre & ref & post & sr & H1 & H2 & H3).
      exists pre, ref, post, sr. split; [assumption|]. split; [lia | assumption].
    - intros (pre & ref & post & sr & -> & -> & Hpre & Hr & Hrel).
      now rewrite (R1_loop_found df sq pre post ref sr 0 Hpre Hr Hrel). }
  split; [exact Hsome|]. split.
  - split; [apply (R1_loop_inv df sq result 0 None) | apply R1_loop_none].
  - intros i H. apply Hsome in H.
    destruct H as (pre & ref & post & sr & -> & -> & _).
    rewrite len_app. unfold len. cbn [List.length]. lia.
Qed.

Lemma R1_first_match_witness :
  R1 3 [ {| result_fname := 1 |}; {| result_fname := 2 |}; {| result_fname := 4 |} ]
     df_example = Ret (Some 2).
Proof.
  apply (proj1 (R1_first_match 3
                  [ {| result_fname := 1 |}; {| result_fname := 2 |};
                    {| result_fname := 4 |} ]
                  df_example (py_set (split_comma "cat")) eq_refl) 2).
  exists [ {| result_fname := 1 |}; {| result_fname := 2 |} ],
         {| result_fname := 4 |}, [], (py_set (split_comma "cat,meow")).
  split; [reflexivity|]. split; [reflexivity|]. split; [|split].
  - repeat constructor.
    + exists (py_set (split_comma "dog,bark")). split; [reflexivity|].
      intros H. apply relevance_of_spec in H. discriminate H.
    + exists (py_set (split_comma "dog")). split; [reflexivity|].
      intros H. apply relevance_of_spec in H. discriminate H.
  - reflexivity.
  - apply relevance_of_spec. reflexivity.
Defined.

(** [R1] stops at the first match: whatever follows it in the result list,
    an identifier missing from the label store included, leaves the rank
    unchanged. *)
Theorem R1_ignores_later_results (query_fname : Z) (result later : list result_entry)
    (df : DataFrame) (i : Z) :
  R1 query_fname result df = Ret (Some i) ->
  R1 query_fname (result ++ later) df = Ret (Some i).
Proof.
  unfold R1. destruct (get_labels query_fname df) as [sq|e]; [|discriminate].
  cbn [bind]. intros H. apply R1_loop_inv in H.
  destruct H as (pre & ref & post & sr & -> & -> & Hpre & Hr & Hrel).
  rewrite <- app_assoc. cbn [app].
  apply (R1_loop_found df sq pre (post ++ later) ref sr 0); assumption.
Qed.

Lemma R1_ignores_later_results_witness :
  R1 1 ([ {| result_fname := 3 |}; {| result_fname := 2 |} ]
        ++ [ {| result_fname := 404 |} ]) df_example = Ret (Some 1).
Proof.
  apply (R1_ignores_later_results 1
           [ {| result_fname := 3 |}; {| result_fname := 2 |} ]
           [ {| result_fname := 404 |} ] df_example 1).
  reflexivity.
Defined.

Lemma R1_loop_relevance (df : DataFrame) (sq : set string)
    (result : list result_entry) (relevance : list Z) (i : Z) :
  relevance_loop sq result df None = Ret relevance ->
  R1_loop sq i result df = Ret (first_one_from i relevance).
Proof.
  revert relevance i. induction result as [|ref result IH]; intros relevance i H;
    cbn [relevance_loop] in H.
  - injection H as <-. reflexivity.
  - destruct (get_labels (result_fname ref) df) as [sr|e] eqn:Er; [|discriminate H].
    cbn [bind] in H.
    destruct (relevance_loop sq result df None) as [rel'|e] eqn:El; [|discriminate H].
    cbn [bind] in H. injection H as <-.
    cbn [R1_loop first_one_from]. rewrite Er. cbn [bind].
    rewrite intersection_test.
    destruct (relevance_of sq sr None =? 1); [reflexivity|].
    now apply IH.
Qed.

(** When the relevance of the whole result list can be evaluated, [R1] is
    the position of the first 1 in it. *)
Theorem R1_of_relevance (query_fname : Z) (result : list result_entry)
    (df : DataFrame) (relevance : list Z) :
  evaluate_relevance query_fname result df None = Ret relevance ->
  R1 query_fname result df = Ret (first_one_from 0 relevance).
Proof.
  unfold evaluate_relevance, R1.
  destruct (get_labels query_fname df) as [sq|e]; [|discriminate].
  cbn [bind]. apply R1_loop_relevance.
Qed.

Lemma R1_of_relevance_witness :
  R1 3 [ {| result_fname := 1 |}; {| result_fname := 2 |}; {| result_fname := 4 |} ]
     df_example = Ret (first_one_from 0 [0; 0; 1]).
Proof.
  apply (R1_of_relevance 3
           [ {| result_fname := 1 |}; {| result_fname := 2 |}; {| result_fname := 4 |} ]
           df_example [0; 0; 1]).
  reflexivity.
Defined.

(** ** Mean first relevant rank *)

Lemma comprehension_app {A B : Type} (f : A -> res B) (l1 l2 : list A) :
  comprehension f (l1 ++ l2)
  = (bs1 <- comprehension f l1 ;; bs2 <- comprehension f l2 ;; Ret (bs1 ++ bs2)).
Proof.
  induction l1 as [|a l1 IH]; cbn [app comprehension].
  - cbn [bind]. destruct (comprehension f l2); reflexivity.
  - destruct (f a) as [b|e]; cbn [bind]; [|reflexivity].
    rewrite IH. destruct (comprehension f l1) as [bs1|e]; cbn [bind]; [|reflexivity].
    destruct (comprehension f l2); reflexivity.
Qed.

Lemma comprehension_Forall {A B : Type} (f : A -> res B) (P : B -> Prop)
    (l : list A) (bs : list B) :
  (forall a b, In a l -> f a = Ret b -> P b) ->
  comprehension f l = Ret bs -> Forall P bs.
Proof.
  revert bs. induction l as [|a l IH]; intros bs Hf H; cbn [comprehension] in H.
  - injection H as <-. constructor.
  - destruct (f a) as [b|e] eqn:Ea; [|discriminate H]. cbn [bind] in H.
    destruct (comprehension f l) as [bs'|e] eqn:El; [|discriminate H].
    cbn [bind] in H. injection H as <-. constructor.
    + apply (Hf a b); [now left | assumption].
    + apply IH; [|reflexivity]. intros a' b' Hin. apply Hf. now right.
Qed.

Lemma R1_nonneg (query_fname : Z) (result : list result_entry) (df : DataFrame)
    (i : Z) :
  R1 query_fname result df = Ret (Some i) -> 0 <= i.
Proof.
  unfold R1. destruct (get_labels query_fname df) as [sq|e]; [|discriminate].
  cbn [bind]. intros H. apply R1_loop_inv in H.
  destruct H as (pre & _ & _ & _ & _ & -> & _). unfold len. lia.
Qed.

Lemma kept_ranks_at_least_one (r1s : list (option Z)) :
  Forall (fun x => match x with Some i => 0 <= i | None => True end) r1s ->
  len (filter truthy r1s) <= sum (ranks (filter truthy r1s)).
Proof.
  induction 1 as [|x r1s Hx _ IH]; cbn [filter].
  - exact (Z.le_refl 0).
  - destruct x as [i|]; cbn [truthy]; [|exact IH].
    destruct (i =? 0) eqn:Ei; cbn [negb]; [exact IH|].
    apply Z.eqb_neq in Ei. cbn [ranks flat_map app].
    fold (ranks (filter truthy r1s)). rewrite sum_cons.
    unfold len in *. cbn [List.length]. lia.
Qed.

(** Whenever [calculate_MR1] returns, its value is at least 1: the ranks it
    averages are the first-relevant ranks that are neither [None] nor 0. *)
Theorem calculate_MR1_at_least_one (results : results_dict) (df : DataFrame)
    (mr1 : Q) :
  calculate_MR1 results df = Ret mr1 -> (1 <= mr1)%Q.
Proof.
  unfold calculate_MR1.
  destruct (comprehension (fun '(query_fname, result) => R1 query_fname result df)
              results) as [r1s|e] eqn:Ec; [|discriminate].
  cbn [bind]. intros H.
  assert (Hnn : Forall (fun x => match x with Some i => 0 <= i | None => True end) r1s).
  { refine (comprehension_Forall _ _ _ _ _ Ec).
    intros [query_fname result] [i|] _ Hab; [|exact I].
    now apply (R1_nonneg query_fname result df). }
  pose proof (kept_ranks_at_least_one r1s Hnn) as Hle.
  assert (Hlen : 0 <= len (filter truthy r1s)) by (unfold len; lia).
  destruct (Z.eq_dec (len (filter truthy r1s)) 0) as [Hz|Hnz].
  - rewrite Hz in H. discriminate H.
  - rewrite true_div_nonzero in H by assumption. injection H as <-.
    apply Qle_shift_div_l; [apply inject_Z_pos; lia|].
    rewrite Qmult_1_l, <- Zle_Qle. assumption.
Qed.

Lemma calculate_MR1_at_least_one_witness :
  calculate_MR1 results_example df_example = Ret (Qdiv (inject_Z 2) (inject_Z 1))
  /\ (1 <= inject_Z 2 / inject_Z 1)%Q.
Proof.
  split; [reflexivity|].
  apply (calculate_MR1_at_least_one results_example df_example). reflexivity.
Defined.

(** A query whose first-relevant rank is [None] or 0 has no effect on
    [calculate_MR1]: with or without it the function gives the same
    answer. *)
Theorem calculate_MR1_skips_query (before after : results_dict)
    (query_fname : Z) (result : list result_entry) (df : DataFrame)
    (x : option Z) :
  R1 query_fname result df = Ret x -> truthy x = false ->
  calculate_MR1 (before ++ (query_fname, result) :: after) df
  = calculate_MR1 (before ++ after) df.
Proof.
  intros Hx Ht. unfold calculate_MR1. rewrite !comprehension_app.
  destruct (comprehension (fun '(q, r) => R1 q r df) before) as [r1|e];
    cbn [bind]; [|reflexivity].
  cbn [comprehension]. rewrite Hx. cbn [bind].
  destruct (comprehension (fun '(q, r) => R1 q r df) after) as [r2|e];
    cbn [bind]; [|reflexivity].
  rewrite !filter_app. cbn [filter]. rewrite Ht. reflexivity.
Qed.

Lemma calculate_MR1_skips_query_witness :
  calculate_MR1 ([ (3, [ {| result_fname := 1 |}; {| result_fname := 4 |} ]) ]
                 ++ (1, [ {| result_fname := 3 |} ]) :: []) df_example
  = calculate_MR1 ([ (3, [ {| result_fname := 1 |}; {| result_fname := 4 |} ]) ]
                   ++ []) df_example.
Proof.
  apply (calculate_MR1_skips_query
           [ (3, [ {| result_fname := 1 |}; {| result_fname := 4 |} ]) ] []
           1 [ {| result_fname := 3 |} ] df_example None).
  - reflexivity.
  - reflexivity.
Defined.

(** When no query has a first-relevant rank of 1 or more (no queries at
    all, no match, or a match at rank 0 only), [calculate_MR1] divides by
    zero. *)
Theorem calculate_MR1_nothing_kept (results : results_dict) (df : DataFrame) :
  Forall (fun qr => exists x, R1 (fst qr) (snd qr) df = Ret x /\ truthy x = false)
         results ->
  calculate_MR1 results df = Raise ZeroDivisionError.
Proof.
  induction 1 as [|[q r] results (x & Hx & Ht) _ IH].
  - reflexivity.
  - cbn [fst snd] in Hx.
    rewrite <- IH. apply (calculate_MR1_skips_query [] results q r df x Hx Ht).
Qed.

Lemma calculate_MR1_nothing_kept_witness :
  calculate_MR1 [ (1, [ {| result_fname := 2 |} ]); (3, [ {| result_fname := 1 |} ]) ]
    df_example = Raise ZeroDivisionError.
Proof.
  apply (calculate_MR1_nothing_kept
           [ (1, [ {| result_fname := 2 |} ]); (3, [ {| result_fname := 1 |} ]) ]
           df_example).
  repeat constructor.
  - exists (Some 0). split; reflexivity.
  - exists None. split; reflexivity.
Defined.

(** ** Labels of the table and the pattern *)

Lemma split_comma_comma_free (s t : string) :
  In t (split_comma s) -> comma_free t = true.
Proof.
  revert t. induction s as [|c s IH]; intros t; cbn [split_comma].
  - intros [<-|[]]. reflexivity.
  - destruct (Ascii.eqb c ","%char) eqn:Ec.
    + intros [<-|H]; [reflexivity | now apply IH].
    + destruct (split_comma s) as [|t' ts] eqn:Es.
      * intros [<-|[]]. cbn [comma_free]. now rewrite Ec.
      * intros [<-|H].
        -- cbn [comma_free]. rewrite Ec. cbn [negb andb]. apply IH. now left.
        -- apply IH. now right.
Qed.

(** Every label obtained by splitting a row's labels is found by
    [find_indices_containing_label] in that row, so the rows selected for a
    label taken from the table are never none. *)
Theorem find_indices_finds_own_labels (label : string) (df : DataFrame)
    (i : nat) (r : row) :
  nth_error df i = Some r -> In label (split_comma (labels r)) ->
  nth_error (find_indices_containing_label label df) i = Some true.
Proof.
  intros Hr Hin. unfold find_indices_containing_label.
  rewrite nth_error_map, Hr. cbn [option_map]. f_equal.
  rewrite search_is_token by now apply (split_comma_comma_free (labels r)).
  now apply is_token_In.
Qed.

Lemma find_indices_finds_own_labels_witness :
  nth_error (find_indices_containing_label "meow" df_example) 3 = Some true.
Proof.
  apply (find_indices_finds_own_labels "meow" df_example 3
           {| fname := 4; labels := "cat,meow" |}).
  - reflexivity.
  - right. left. reflexivity.
Defined.

(** The self-test of the module passes: each of its six cases is within
    0.001 of the expected value. *)
Theorem test_average_precision_at_n_succeeds :
  test_average_precision_at_n = true
  /\ Forall (fun t => match t with
                      | (relevance, n, n_relevant, answer) =>
                          exists ap,
                            average_precision_at_n relevance n (Some n_relevant) = Ret ap
                            /\ (Qabs (ap - answer) <= 1 # 1000)%Q
                      end)
            average_precision_at_n_tests.
Proof.
  split; [vm_compute; reflexivity|].
  repeat constructor;
    (eexists; split; [vm_compute; reflexivity | vm_compute; discriminate]).
Qed.

(** ** The per-label aggregate *)

Lemma all_labels_In (df : DataFrame) (label : string) :
  In label (all_labels df)
  <-> exists r, In r df /\ In label (split_comma (labels r)).
Proof.
  unfold all_labels. rewrite (py_set_In _ label), in_flat_map. reflexivity.
Qed.

Lemma select_fnames_In (g : row -> bool) (df : DataFrame) (f : Z) :
  In f (select_fnames (map g df) df)
  <-> exists r, In r df /\ g r = true /\ fname r = f.
Proof.
  unfold select_fnames. induction df as [|r df IH]; cbn [map combine filter fst].
  - cbn. split; [contradiction | intros (r & [] & _)].
  - destruct (g r) eqn:Eg; cbn [map In snd]; rewrite IH; split.
    + intros [H | (r' & Hin & Hg & Hf)].
      * exists r. repeat split; [now left | assumption | assumption].
      * exists r'. repeat split; [now right | assumption | assumption].
    + intros (r' & [<- | Hin] & Hg & Hf); [now left|].
      right. exists r'. repeat split; assumption.
    + intros (r' & Hin & Hg & Hf). exists r'. repeat split; [now right | assumption | assumption].
    + intros (r' & [<- | Hin] & Hg & Hf); [congruence|].
      exists r'. repeat split; assumption.
Qed.

Lemma get_labels_present (r : row) (df : DataFrame) :
  In r df -> exists s, get_labels (fname r) df = Ret s.
Proof.
  intros Hin.
  destruct (get_labels_cases (fname r) df) as [H | (pre & r' & post & -> & Hpre & Hr)].
  - exfalso. apply (proj1 (Forall_forall _ _) H r Hin). reflexivity.
  - eexists. now apply get_labels_first.
Qed.

Lemma In_firstn {A : Type} (x : A) (n : nat) (l : list A) :
  In x (firstn n l) -> In x l.
Proof.
  revert n. induction l as [|a l IH]; intros [|n]; cbn [firstn In]; try tauto.
  intros [H|H]; [now left | right; now apply (IH n)].
Qed.

Lemma resolves_slice (df : DataFrame) (result : list result_entry) (k : Z) :
  resolves df result -> resolves df (slice_to result k).
Proof.
  intros H. unfold resolves in *. apply Forall_forall. intros ref Hin.
  apply (proj1 (Forall_forall _ _) H).
  unfold slice_to in Hin. destruct (k <? 0); now apply In_firstn in Hin.
Qed.

Lemma evaluate_relevance_returns (query_fname : Z) (result : list result_entry)
    (df : DataFrame) (query_label : option string) :
  (exists s, get_labels query_fname df = Ret s) -> resolves df result ->
  exists relevance,
    evaluate_relevance query_fname result df query_label = Ret relevance.
Proof.
  intros (s & Hs) Hres. unfold evaluate_relevance. rewrite Hs. cbn [bind].
  destruct (relevance_loop_spec s df query_label result Hres) as (rel & Hrel & _).
  now exists rel.
Qed.

Lemma label_map_entry_fails (results : keyed_results) (df : DataFrame) (k : Z)
    (query_label : string) :
  exists e, label_map_entry results df k query_label = Failed e.
Proof.
  unfold label_map_entry.
  destruct (select_fnames (find_indices_containing_label query_label df) df)
    as [|f fs].
  - exists (Other ZeroDivisionError). reflexivity.
  - cbn [for_each].
    destruct (dict_get results (KStr (str f))) as [result|e]; cbn [and_then].
    + destruct (evaluate_relevance f (slice_to result k) df (Some query_label))
        as [rel|e]; cbn [bind call2 lift and_then]; eexists; reflexivity.
    + eexists. reflexivity.
Qed.

Lemma first_label_query (iteration : list string) (df : DataFrame) :
  df <> [] -> Permutation iteration (all_labels df) ->
  exists label rest f fs r,
    iteration = label :: rest
    /\ select_fnames (find_indices_containing_label label df) df = f :: fs
    /\ In r df /\ fname r = f.
Proof.
  intros Hne Hperm. destruct iteration as [|label rest].
  - exfalso. apply Permutation_nil in Hperm.
    destruct df as [|r df]; [congruence|].
    destruct (split_comma (labels r)) as [|t ts] eqn:Es;
      [now apply (split_comma_nonempty (labels r))|].
    assert (Hin : In t (all_labels (r :: df))).
    { apply all_labels_In. exists r. split; [now left|]. rewrite Es. now left. }
    rewrite Hperm in Hin. contradiction.
  - assert (Hlabel : In label (all_labels df)).
    { apply (Permutation_in _ Hperm). now left. }
    apply all_labels_In in Hlabel. destruct Hlabel as (r & Hr & Htok).
    assert (Hsel : In (fname r)
                     (select_fnames (find_indices_containing_label label df) df)).
    { unfold find_indices_containing_label. apply select_fnames_In.
      exists r. split; [assumption|]. split; [|reflexivity].
      rewrite search_is_token by now apply (split_comma_comma_free (labels r)).
      now apply is_token_In. }
    destruct (select_fnames (find_indices_containing_label label df) df)
      as [|f fs] eqn:Ef; [contradiction|].
    assert (Hf : In f (select_fnames (find_indices_containing_label label df) df))
      by (rewrite Ef; now left).
    unfold find_indices_containing_label in Hf. apply select_fnames_In in Hf.
    destruct Hf as (r' & Hr' & _ & Hfr).
    exists label, rest, f, fs, r'. repeat split; assumption.
Qed.

(** [calculate_map_at_k_for_labels] never returns a table for a non-empty
    dataframe, in whatever order it visits the labels: the first label
    already fails.  When the store holds, under the key [str(fname)] of
    every item, a result list whose identifiers resolve, the failure is the
    [TypeError] of the call [average_precision(relevance)], which leaves
    [n_relevant] unbound; when the key of an item is missing (a store keyed
    by integers has none of them) it can be a [KeyError].  On an empty
    dataframe the function returns the empty table. *)
Theorem calculate_map_at_k_for_labels_never_returns (iteration : list string)
    (results : keyed_results) (df : DataFrame) (k : Z) :
  Permutation iteration (all_labels df) ->
  (df = [] ->
   calculate_map_at_k_for_labels iteration results df k
   = Done ([], ["label"; "map@15"; "occurance"]%string))
  /\ (df <> [] ->
      exists e, calculate_map_at_k_for_labels iteration results df k = Failed e)
  /\ (df <> [] ->
      (forall r, In r df ->
         exists result,
           dict_get results (KStr (str (fname r))) = Done result
           /\ resolves df result) ->
      calculate_map_at_k_for_labels iteration results df k
      = Failed (Other TypeError))
  /\ (df <> [] ->
      (forall r, In r df -> dict_get results (KStr (str (fname r))) = Failed KeyError) ->
      calculate_map_at_k_for_labels iteration results df k = Failed KeyError).
Proof.
  intros Hperm. split; [|split; [|split]].
  - intros ->. apply Permutation_sym, Permutation_nil in Hperm. subst iteration.
    reflexivity.
  - intros Hne.
    destruct (first_label_query iteration df Hne Hperm)
      as (label & rest & _ & _ & _ & -> & _).
    unfold calculate_map_at_k_for_labels. cbn [for_each].
    destruct (label_map_entry_fails results df k label) as (e & ->).
    exists e. reflexivity.
  - intros Hne Hall.
    destruct (first_label_query iteration df Hne Hperm)
      as (label & rest & f & fs & r & -> & Hsel & Hr & <-).
    unfold calculate_map_at_k_for_labels, label_map_entry. cbn [for_each].
    rewrite Hsel. destruct (Hall r Hr) as (result & Hget & Hres).
    cbn [for_each]. rewrite Hget. cbn [and_then].
    destruct (evaluate_relevance_returns (fname r) (slice_to result k) df
                (Some label) (get_labels_present r df Hr)
                (resolves_slice df result k Hres)) as (rel & ->).
    reflexivity.
  - intros Hne Hall.
    destruct (first_label_query iteration df Hne Hperm)
      as (label & rest & f & fs & r & -> & Hsel & Hr & <-).
    unfold calculate_map_at_k_for_labels, label_map_entry. cbn [for_each].
    rewrite Hsel. cbn [for_each]. rewrite (Hall r Hr). reflexivity.
Qed.

Lemma calculate_map_at_k_for_labels_never_returns_witness :
  calculate_map_at_k_for_labels (all_labels df_example)
    [ (KStr "1", [ {| result_fname := 2 |} ]); (KStr "2", [ {| result_fname := 1 |} ]);
      (KStr "3", [ {| result_fname := 4 |} ]); (KStr "4", [ {| result_fname := 3 |} ]) ]
    df_example 15
  = Failed (Other TypeError)
  /\ calculate_map_at_k_for_labels (all_labels df_example)
       [ (KInt 1, [ {| result_fname := 2 |} ]); (KInt 2, [ {| result_fname := 1 |} ]);
         (KInt 3, [ {| result_fname := 4 |} ]); (KInt 4, [ {| result_fname := 3 |} ]) ]
       df_example 15
     = Failed KeyError.
Proof.
  split.
  - apply (calculate_map_at_k_for_labels_never_returns (all_labels df_example)
             [ (KStr "1", [ {| result_fname := 2 |} ]);
               (KStr "2", [ {| result_fname := 1 |} ]);
               (KStr "3", [ {| result_fname := 4 |} ]);
               (KStr "4", [ {| result_fname := 3 |} ]) ]
             df_example 15 (Permutation_refl _)).
    + discriminate.
    + intros r [<- | [<- | [<- | [<- | []]]]]; eexists;
        (split; [reflexivity | repeat constructor; eexists; reflexivity]).
  - apply (calculate_map_at_k_for_labels_never_returns (all_labels df_example)
             [ (KInt 1, [ {| result_fname := 2 |} ]);
               (KInt 2, [ {| result_fname := 1 |} ]);
               (KInt 3, [ {| result_fname := 4 |} ]);
               (KInt 4, [ {| result_fname := 3 |} ]) ]
             df_example 15 (Permutation_refl _)).
    + discriminate.
    + intros r [<- | [<- | [<- | [<- | []]]]]; reflexivity.
Defined.

(** ** The two label-containment tests *)

(** The module tests "the item contains the label" in two ways: by
    membership in the split label set (the label-restricted relevance) and
    by the regular expression of [find_indices_containing_label].  For a
    label without a comma the two agree on every row. *)
Theorem label_tests_agree (query_fname : Z) (df pre post : list row) (r : row)
    (query_label : string) (sq : set string) :
  df = pre ++ r :: post ->
  Forall (fun r' => fname r' <> fname r) pre ->
  get_labels query_fname df = Ret sq ->
  comma_free query_label = true ->
  evaluate_relevance query_fname [ {| result_fname := fname r |} ] df (Some query_label)
  = Ret [if search (label_pattern query_label) (labels r) then 1 else 0].
Proof.
  intros -> Hpre Hq Hcf. unfold evaluate_relevance. rewrite Hq.
  cbn [bind relevance_loop result_fname].
  rewrite (get_labels_first (fname r) pre post r Hpre eq_refl).
  cbn [bind relevance_of]. do 2 f_equal.
  rewrite search_is_token by assumption.
  destruct (contains query_label (py_set (split_comma (labels r)))) eqn:Ec;
    destruct (is_token query_label (labels r)) eqn:Et; try reflexivity; exfalso.
  - apply contains_iff, py_set_In, is_token_In in Ec. congruence.
  - apply is_token_In, py_set_In, contains_iff in Et. congruence.
Qed.

Lemma label_tests_agree_witness :
  evaluate_relevance 1 [ {| result_fname := 4 |} ] df_example (Some "cat"%string)
  = Ret [if search (label_pattern "cat") "cat,meow" then 1 else 0].
Proof.
  apply (label_tests_agree 1 df_example
           [ {| fname := 1; labels := "dog,bark" |};
             {| fname := 2; labels := "dog" |};
             {| fname := 3; labels := "cat" |} ]
           [] {| fname := 4; labels := "cat,meow" |} "cat"
           (py_set (split_comma "dog,bark"))).
  - reflexivity.
  - repeat constructor; discriminate.
  - reflexivity.
  - reflexivity.
Defined.
